(** * 1fa: packing a directory into one text archive and unpacking it

    A shallow embedding of [sh/pack.py] and [sh/unpack.py].

    Text is modelled as [list ascii] (a Python [str] restricted to
    8-bit characters).  The Python library calls the two scripts make
    ([os.path], [glob], [re], [open]) are modelled for a POSIX system
    without symbolic links and without permission errors; each model
    states what it covers where it is defined. *)

From Stdlib Require Import String Ascii List Arith Bool Lia.
From Stdlib Require Import Permutation Sorted DecimalString.
Import ListNotations.

(** ** Text *)

Definition str := list ascii.

Definition lit (s : string) : str := list_ascii_of_string s.

Definition str_eq_dec : forall a b : str, {a = b} + {a <> b} :=
  list_eq_dec ascii_dec.

Definition str_eqb (a b : str) : bool :=
  if str_eq_dec a b then true else false.

Definition LF : ascii := ascii_of_nat 10.
Definition CR : ascii := ascii_of_nat 13.
Definition SLASH : ascii := ascii_of_nat 47.
Definition DOT : ascii := ascii_of_nat 46.

Definition is_lf (c : ascii) : bool := Ascii.eqb c LF.
Definition is_cr (c : ascii) : bool := Ascii.eqb c CR.
Definition is_slash (c : ascii) : bool := Ascii.eqb c SLASH.

(** [str(n)] for a non-negative integer, as an f-string prints it. *)
Definition str_of_nat (n : nat) : str :=
  lit (NilEmpty.string_of_uint (Nat.to_uint n)).

Module PyStr.

(** [s.startswith(p)], returning what follows the prefix. *)
Fixpoint strip_prefix (p s : str) : option str :=
  match p, s with
  | [], _ => Some s
  | _ :: _, [] => None
  | a :: p', b :: s' => if Ascii.eqb a b then strip_prefix p' s' else None
  end.

Definition startswith (s p : str) : bool :=
  match strip_prefix p s with Some _ => true | None => false end.

Definition endswith (s p : str) : bool := startswith (rev s) (rev p).

(** [s[a:b]] for [0 <= a] and [0 <= b]; empty when [b <= a]. *)
Definition slice (s : str) (a b : nat) : str := firstn (b - a) (skipn a s).

(** [s.lstrip], [s.rstrip] and [s.strip] with the line feed as the only
    character of the set to strip. *)
Fixpoint lstrip_lf (s : str) : str :=
  match s with
  | c :: t => if is_lf c then lstrip_lf t else s
  | [] => []
  end.

Definition rstrip_lf (s : str) : str := rev (lstrip_lf (rev s)).

Definition strip_lf (s : str) : str := rstrip_lf (lstrip_lf s).

(** Comparison of two [str] by code point, as [<] on Python strings. *)
Fixpoint compare (a b : str) : comparison :=
  match a, b with
  | [], [] => Eq
  | [], _ :: _ => Lt
  | _ :: _, [] => Gt
  | x :: a', y :: b' =>
      match Ascii.compare x y with
      | Eq => compare a' b'
      | c => c
      end
  end.

Definition ltb (a b : str) : bool :=
  match compare a b with Lt => true | _ => false end.

Definition lt (a b : str) : Prop := compare a b = Lt.

(** [sorted(l)] on a list of strings: a stable insertion sort, which
    returns the same list as any other stable sort. *)
Fixpoint insert (x : str) (l : list str) : list str :=
  match l with
  | [] => [x]
  | y :: l' => if ltb y x then y :: insert x l' else x :: l
  end.

Definition sorted (l : list str) : list str := fold_right insert [] l.

End PyStr.

(** ** [re.finditer] for the marker pattern

    The pattern of [unpack_files] is the literal [MARK], a greedy group
    of characters other than the line feed, and a line feed.  A match
    that starts at a position therefore ends at the first line feed
    after the literal, and there is none when no line feed follows.  [finditer] scans from left to
    right and resumes after the end of each match. *)

Module Re.

Record Match : Type := mkMatch
  { m_start : nat;      (* match.start() *)
    m_end : nat;        (* match.end() *)
    m_group1 : str }.   (* match.group(1) *)

Definition MARK : str := lit "// FILE: ".

(** [split_line s = Some (l, r)] when [s] is [l], a line feed and [r],
    and [l] has no line feed. *)
Fixpoint split_line (s : str) : option (str * str) :=
  match s with
  | [] => None
  | c :: t =>
      if is_lf c then Some ([], t)
      else match split_line t with
           | Some (l, r) => Some (c :: l, r)
           | None => None
           end
  end.

(** The match of the pattern anchored at the head of [s], if any: the
    captured group. *)
Definition match_here (s : str) : option str :=
  match PyStr.strip_prefix MARK s with
  | Some r =>
      match split_line r with
      | Some (name, _) => Some name
      | None => None
      end
  | None => None
  end.

Definition match_len (name : str) : nat := length MARK + length name + 1.

(** [scan skip pos s]: [s] is the text from position [pos] on, of which
    the first [skip] characters belong to the previous match. *)
Fixpoint scan (skip pos : nat) (s : str) : list Match :=
  match s with
  | [] => []
  | _ :: t =>
      match skip with
      | S k => scan k (S pos) t
      | O =>
          match match_here s with
          | Some name =>
              mkMatch pos (pos + match_len name) name
                :: scan (match_len name - 1) (S pos) t
          | None => scan 0 (S pos) t
          end
      end
  end.

Definition finditer (content : str) : list Match := scan 0 0 content.

End Re.

(** ** Files and directories

    A file system holds a node at each location; a location is the list
    of names that leads to it from the root.  The nodes are kept in an
    association list, whose order is the order in which a directory
    scan enumerates them.  File contents are text: what the bytes of
    the file decode to, before any translation of line endings. *)

Module Fs.

Inductive node : Type :=
  | File (content : str)
  | Dir.

Definition loc := list str.

Definition loc_eq_dec : forall a b : loc, {a = b} + {a <> b} :=
  list_eq_dec str_eq_dec.

Record FS : Type := mkFS
  { cwd : loc;                      (* the working directory of the process *)
    nodes : list (loc * node) }.    (* every node but the root *)

Inductive errno : Type := ENOENT | ENOTDIR | EISDIR | EEXIST.

Inductive res (A : Type) : Type :=
  | Ok (a : A)
  | Err (e : errno).
Arguments Ok {A} a.
Arguments Err {A} e.

Fixpoint assoc (l : loc) (ns : list (loc * node)) : option node :=
  match ns with
  | [] => None
  | (k, n) :: ns' => if loc_eq_dec k l then Some n else assoc l ns'
  end.

(** The root always exists and is a directory. *)
Definition node_at (fs : FS) (l : loc) : option node :=
  match l with
  | [] => Some Dir
  | _ => assoc l (nodes fs)
  end.

(** Replace the node at [l] where it is, or add it as the last one. *)
Fixpoint put (l : loc) (n : node) (ns : list (loc * node)) : list (loc * node) :=
  match ns with
  | [] => [(l, n)]
  | (k, m) :: ns' => if loc_eq_dec k l then (k, n) :: ns' else (k, m) :: put l n ns'
  end.

Definition set_node (fs : FS) (l : loc) (n : node) : FS :=
  mkFS (cwd fs) (put l n (nodes fs)).

(** [p.split("/")] *)
Fixpoint split_slash (s : str) : list str :=
  match s with
  | [] => [[]]
  | c :: t =>
      if is_slash c then [] :: split_slash t
      else match split_slash t with
           | h :: r => (c :: h) :: r
           | [] => [[c]]
           end
  end.

Definition isabs (p : str) : bool := PyStr.startswith p [SLASH].

Definition is_cur (c : str) : bool := str_eqb c [] || str_eqb c [DOT].
Definition is_parent (c : str) : bool := str_eqb c [DOT; DOT].

(** Path resolution, one component at a time: every component is looked
    up in a directory that exists.  The result is the location the path
    names, whether or not a node is there. *)
Fixpoint walk (fs : FS) (cur : loc) (comps : list str) : res loc :=
  match comps with
  | [] => Ok cur
  | c :: rest =>
      match node_at fs cur with
      | None => Err ENOENT
      | Some (File _) => Err ENOTDIR
      | Some Dir =>
          if is_cur c then walk fs cur rest
          else if is_parent c then walk fs (removelast cur) rest
          else walk fs (cur ++ [c]) rest
      end
  end.

Definition start (fs : FS) (p : str) : loc :=
  if isabs p then [] else cwd fs.

Definition resolve (fs : FS) (p : str) : res loc :=
  match p with
  | [] => Err ENOENT
  | _ => walk fs (start fs p) (split_slash p)
  end.

(** [os.path.isdir(p)] and [os.path.exists(p)] *)
Definition isdir (fs : FS) (p : str) : bool :=
  match resolve fs p with
  | Ok l => match node_at fs l with Some Dir => true | _ => false end
  | Err _ => false
  end.

Definition exists_ (fs : FS) (p : str) : bool :=
  match resolve fs p with
  | Ok l => match node_at fs l with Some _ => true | None => false end
  | Err _ => false
  end.

(** The names in the directory at [d], in the order of enumeration. *)
Definition child_of (d l : loc) : option str :=
  match PeanoNat.Nat.eq_dec (length l) (S (length d)) with
  | left _ => if loc_eq_dec (firstn (length d) l) d then Some (last l []) else None
  | right _ => None
  end.

Definition listdir (fs : FS) (d : loc) : list str :=
  flat_map (fun kn => match child_of d (fst kn) with Some n => [n] | None => [] end)
           (nodes fs).

(** Reading in text mode translates the line endings CR LF and CR to
    LF (universal newlines, the default of [open]). *)
Fixpoint universal_newlines (s : str) : str :=
  match s with
  | [] => []
  | c :: t =>
      if is_cr c then
        match t with
        | d :: t' => if is_lf d then LF :: universal_newlines t'
                     else LF :: universal_newlines t
        | [] => [LF]
        end
      else c :: universal_newlines t
  end.

(** [open(p, "r")] followed by [read()] and the closing of the file. *)
Definition read_text (fs : FS) (p : str) : res str :=
  match resolve fs p with
  | Err e => Err e
  | Ok l =>
      match node_at fs l with
      | None => Err ENOENT
      | Some Dir => Err EISDIR
      | Some (File c) => Ok (universal_newlines c)
      end
  end.

(** [open(p, "w")]: the file is created or truncated at once; the
    handle is the location of the file. *)
Definition open_w (fs : FS) (p : str) : res (FS * loc) :=
  match resolve fs p with
  | Err e => Err e
  | Ok l =>
      match node_at fs l with
      | Some Dir => Err EISDIR
      | _ => Ok (set_node fs l (File []), l)
      end
  end.

(** Closing a handle opened for writing: what was written since
    [open_w] becomes the content of the file.  On POSIX, writing LF in
    text mode writes LF. *)
Definition close_w (fs : FS) (h : loc) (written : str) : FS :=
  set_node fs h (File written).

(** [os.makedirs(p, exist_ok=True)]: every missing directory along the
    path is created, from left to right.  The file system is returned
    with the error, since directories made before a failure remain. *)
Fixpoint mkdirs (fs : FS) (cur : loc) (comps : list str) : FS * option errno :=
  match comps with
  | [] =>
      match node_at fs cur with
      | Some Dir => (fs, None)
      | Some (File _) => (fs, Some EEXIST)
      | None => (fs, Some ENOENT)
      end
  | c :: rest =>
      match node_at fs cur with
      | None => (fs, Some ENOENT)
      | Some (File _) => (fs, Some ENOTDIR)
      | Some Dir =>
          if is_cur c then mkdirs fs cur rest
          else if is_parent c then mkdirs fs (removelast cur) rest
          else
            match node_at fs (cur ++ [c]) with
            | None => mkdirs (set_node fs (cur ++ [c]) Dir) (cur ++ [c]) rest
            | Some _ => mkdirs fs (cur ++ [c]) rest
            end
      end
  end.

Definition makedirs (fs : FS) (p : str) : FS * option errno :=
  match p with
  | [] => (fs, Some ENOENT)
  | _ => mkdirs fs (start fs p) (split_slash p)
  end.

End Fs.

(** ** [os.path] on strings (posixpath) *)

Module OsPath.

(** [os.path.join(a, b)] *)
Definition join (a b : str) : str :=
  if PyStr.startswith b [SLASH] then b
  else if match a with [] => true | _ => false end || PyStr.endswith a [SLASH]
       then a ++ b
       else a ++ [SLASH] ++ b.

(** [os.path.basename(p)]: what follows the last slash. *)
Definition basename (p : str) : str := last (Fs.split_slash p) [].

(** The head of [os.path.split(p)]: what comes before the base name,
    without its trailing slashes unless it consists of slashes only. *)
Definition rstrip_slash (s : str) : str :=
  rev ((fix drop (r : str) : str :=
          match r with
          | c :: t => if is_slash c then drop t else r
          | [] => []
          end) (rev s)).

Definition dirname (p : str) : str :=
  let head := firstn (length p - length (basename p)) p in
  if forallb is_slash head then head else rstrip_slash head.

End OsPath.

(** ** [glob.glob]

    Modelled for the patterns [pack_files] builds: a directory part
    without metacharacters, and a base name made of a star and a
    literal suffix.  Such a pattern selects the names of the directory
    that end with the suffix and do not start with a dot, in the order
    of enumeration, each joined to the directory part.  Any other
    pattern is outside the model ([None]). *)

Module Glob.

Definition is_magic (c : ascii) : bool :=
  Ascii.eqb c (ascii_of_nat 42) || Ascii.eqb c (ascii_of_nat 63)
  || Ascii.eqb c (ascii_of_nat 91).

Definition has_magic (s : str) : bool := existsb is_magic s.

Definition ishidden (name : str) : bool := PyStr.startswith name [DOT].

Definition selected (suffix name : str) : bool :=
  negb (ishidden name) && PyStr.endswith name suffix.

Definition scandir (fs : Fs.FS) (d : str) : list str :=
  match Fs.resolve fs d with
  | Fs.Ok l =>
      match Fs.node_at fs l with
      | Some Fs.Dir => Fs.listdir fs l
      | _ => []
      end
  | Fs.Err _ => []
  end.

Definition glob (fs : Fs.FS) (pattern : str) : option (list str) :=
  let d := OsPath.dirname pattern in
  match OsPath.basename pattern, d with
  | c :: suffix, _ :: _ =>
      if Ascii.eqb c (ascii_of_nat 42) && negb (has_magic suffix)
         && negb (has_magic d)
      then Some (map (OsPath.join d) (filter (selected suffix) (scandir fs d)))
      else None
  | _, _ => None
  end.

End Glob.

(** ** The two programs *)

Inductive outcome : Type :=
  | Returned                    (* the function returned *)
  | Raised (e : Fs.errno)       (* an OSError left the function *)
  | Unmodelled.                 (* a library call outside the models above *)

Record result : Type := mkResult
  { r_fs : Fs.FS;               (* the file system afterwards *)
    r_stdout : list str;        (* one element per call of print *)
    r_outcome : outcome }.

Module Pack.

(** The body of the [for] loop of [pack_files], with the text written
    to [outfile] so far; [fs] is the file system after [outfile] was
    opened.  What is written reaches the file when [outfile] is closed,
    on leaving the [with] block, also by an exception. *)
Fixpoint pack_loop (fs : Fs.FS) (n i : nat) (todo : list str) (written : str)
  : str * option Fs.errno :=
  match todo with
  | [] => (written, None)
  | filepath :: rest =>
      let filename := OsPath.basename filepath in
      let written := written ++ lit "// FILE: " ++ filename ++ [LF] in
      match Fs.read_text fs filepath with
      | Fs.Err e => (written, Some e)
      | Fs.Ok text =>
          let written := written ++ text in
          let written := if i <? n - 1 then written ++ [LF] else written in
          pack_loop fs n (S i) rest written
      end
  end.

Definition pack_files (fs : Fs.FS) (source_dir output_file : str) : result :=
  if negb (Fs.isdir fs source_dir) then
    mkResult fs [lit "Error: Source directory not found at " ++ source_dir]
             Returned
  else
    match Glob.glob fs (OsPath.join source_dir (lit "*.swift")),
          Glob.glob fs (OsPath.join source_dir (lit "*.plist")),
          Glob.glob fs (OsPath.join source_dir (lit "*.json")),
          Glob.glob fs (OsPath.join source_dir (lit "*.entitlements")) with
    | Some swift_files, Some plist_files, Some json_files,
      Some entitlements_files =>
        let all_files :=
          PyStr.sorted (swift_files ++ plist_files ++ json_files
                        ++ entitlements_files) in
        match all_files with
        | [] =>
            mkResult fs
              [lit "No .swift, .plist, .json, or .entitlements files found in "
               ++ source_dir]
              Returned
        | _ :: _ =>
            match Fs.open_w fs output_file with
            | Fs.Err e => mkResult fs [] (Raised e)
            | Fs.Ok (fs1, outfile) =>
                let (written, exn) :=
                  pack_loop fs1 (length all_files) 0 all_files [] in
                let fs2 := Fs.close_w fs1 outfile written in
                match exn with
                | Some e => mkResult fs2 [] (Raised e)
                | None =>
                    mkResult fs2
                      [lit "Successfully packed "
                       ++ str_of_nat (length all_files)
                       ++ lit " files into " ++ output_file]
                      Returned
                end
            end
        end
    | _, _, _, _ => mkResult fs [] Unmodelled
    end.

End Pack.

Module Unpack.

Import Re.

(** The [for] loop of [unpack_files] over [enumerate(markers)]. *)
Fixpoint unpack_loop (content : str) (markers : list Match) (output_dir : str)
  (i : nat) (todo : list Match) (fs : Fs.FS) (stdout : list str)
  (file_count : nat) : Fs.FS * list str * nat * option Fs.errno :=
  match todo with
  | [] => (fs, stdout, file_count, None)
  | match_ :: rest =>
      let filename := m_group1 match_ in
      let start_pos := m_end match_ in
      let end_pos :=
        if i + 1 <? length markers
        then m_start (nth (i + 1) markers match_)
        else length content in
      let file_content :=
        PyStr.strip_lf (PyStr.slice content start_pos end_pos) in
      let output_path := OsPath.join output_dir filename in
      match Fs.open_w fs output_path with
      | Fs.Err e => (fs, stdout, file_count, Some e)
      | Fs.Ok (fs1, outfile) =>
          let fs2 := Fs.close_w fs1 outfile file_content in
          unpack_loop content markers output_dir (S i) rest fs2
            (stdout ++ [lit "Created " ++ output_path]) (file_count + 1)
      end
  end.

Definition unpack_files (fs : Fs.FS) (input_file output_dir : str) : result :=
  if negb (Fs.exists_ fs input_file) then
    mkResult fs [lit "Error: Input file not found at " ++ input_file] Returned
  else
    match Fs.makedirs fs output_dir with
    | (fs1, Some e) => mkResult fs1 [] (Raised e)
    | (fs1, None) =>
        match Fs.read_text fs1 input_file with
        | Fs.Err e => mkResult fs1 [] (Raised e)
        | Fs.Ok content =>
            let markers := finditer content in
            match markers with
            | [] =>
                mkResult fs1 [lit "No file markers found in the input file."]
                         Returned
            | _ :: _ =>
                match unpack_loop content markers output_dir 0 markers fs1 [] 0
                with
                | (fs2, stdout, _, Some e) => mkResult fs2 stdout (Raised e)
                | (fs2, stdout, file_count, None) =>
                    mkResult fs2
                      (stdout ++
                       [[LF] ++ lit "Successfully unpacked "
                        ++ str_of_nat file_count ++ lit " files into "
                        ++ output_dir])
                      Returned
                end
            end
        end
    end.

End Unpack.

(** ** The archive as a sequence of blocks

    Definitions used to state the properties: the text of a marker line
    followed by a span, the matches a sequence of such blocks gives
    rise to, and the entries the loop of [unpack_files] writes. *)

Module Archive.

Import Re.

Definition no_lf (s : str) : bool := forallb (fun c => negb (is_lf c)) s.
Definition no_cr (s : str) : bool := forallb (fun c => negb (is_cr c)) s.

(** A marker line with its name, and the span that follows it. *)
Definition block (e : str * str) : str :=
  MARK ++ fst e ++ [LF] ++ snd e.

Definition blocks (raw : list (str * str)) : str := flat_map block raw.

(** The matches of the marker lines of [blocks raw], when the first
    block starts at position [p]. *)
Fixpoint matches_of (p : nat) (raw : list (str * str)) : list Match :=
  match raw with
  | [] => []
  | e :: r =>
      mkMatch p (p + match_len (fst e)) (fst e)
        :: matches_of (p + match_len (fst e) + length (snd e)) r
  end.

(** No match of the pattern starts inside [t] when [rest] follows it. *)
Fixpoint quiet (t rest : str) : bool :=
  match t with
  | [] => true
  | _ :: t' =>
      match match_here (t ++ rest) with
      | None => quiet t' rest
      | Some _ => false
      end
  end.

(** [raw] is how the scan divides [blocks raw]: names have no line feed
    and no match starts inside a span. *)
Fixpoint parsed (raw : list (str * str)) : bool :=
  match raw with
  | [] => true
  | e :: r => no_lf (fst e) && quiet (snd e) (blocks r) && parsed r
  end.


(** The spans of the blocks [pack_files] writes: the text of each file,
    and a line feed after each but the last. *)
Fixpoint with_sep (es : list (str * str)) : list (str * str) :=
  match es with
  | [] => []
  | e :: r =>
      match r with
      | [] => [e]
      | _ :: _ => (fst e, snd e ++ [LF]) :: with_sep r
      end
  end.

(** The pairs of [filename] and [file_content] of the iterations of the
    loop of [unpack_files], in order. *)
Fixpoint entries_of (content : str) (markers : list Match) (i : nat)
  (todo : list Match) : list (str * str) :=
  match todo with
  | [] => []
  | match_ :: rest =>
      let end_pos :=
        if i + 1 <? length markers
        then m_start (nth (i + 1) markers match_)
        else length content in
      (m_group1 match_,
       PyStr.strip_lf (PyStr.slice content (m_end match_) end_pos))
        :: entries_of content markers (S i) rest
  end.

Definition entries (content : str) : list (str * str) :=
  entries_of content (finditer content) 0 (finditer content).

(** Writing a list of entries the way the loop of [unpack_files] writes
    each of its own. *)
Fixpoint write_entries (output_dir : str) (es : list (str * str))
  (fs : Fs.FS) (stdout : list str) (file_count : nat)
  : Fs.FS * list str * nat * option Fs.errno :=
  match es with
  | [] => (fs, stdout, file_count, None)
  | e :: rest =>
      let output_path := OsPath.join output_dir (fst e) in
      match Fs.open_w fs output_path with
      | Fs.Err err => (fs, stdout, file_count, Some err)
      | Fs.Ok (fs1, outfile) =>
          write_entries output_dir rest (Fs.close_w fs1 outfile (snd e))
            (stdout ++ [lit "Created " ++ output_path]) (file_count + 1)
      end
  end.

End Archive.

(** ** Definitions used in the statements *)

Section Statements.

Import Fs Re Archive.

(** The text has no slash. *)
Definition no_slash (s : str) : bool := forallb (fun c => negb (is_slash c)) s.

(** A name a directory can hold: not empty, without a slash, and
    neither of the two names every directory reserves. *)
Definition plain (n : str) : bool :=
  no_slash n && negb (is_cur n) && negb (is_parent n).

Definition loc_eqb (a b : loc) : bool :=
  if loc_eq_dec a b then true else false.

(** No location occurs twice in [ks]. *)
Fixpoint distinct (ks : list loc) : bool :=
  match ks with
  | [] => true
  | k :: r => negb (existsb (loc_eqb k) r) && distinct r
  end.

(** A well-formed file system: one node per location, and every name
    on the way to a node is one a directory can hold. *)
Definition wf (fs : FS) : bool :=
  distinct (map fst (nodes fs)) && forallb (forallb plain) (map fst (nodes fs)).

(** [fs'] has every directory of [fs], and the same working directory:
    paths resolve in [fs'] as they do in [fs]. *)
Definition keeps_dirs (fs fs' : FS) : Prop :=
  cwd fs' = cwd fs /\ forall l, node_at fs l = Some Dir -> node_at fs' l = Some Dir.

(** [fs'] has every node of [fs]. *)
Definition extends (fs fs' : FS) : Prop :=
  cwd fs' = cwd fs /\ forall l n, node_at fs l = Some n -> node_at fs' l = Some n.

(** A file stands at [l]. *)
Definition is_file (fs : FS) (l : loc) : Prop :=
  exists c, node_at fs l = Some (File c).

(** The directory part of [os.path.join(a, n)] for a name [n], and what
    [os.path.split] makes of it. *)
Definition join_dir (a : str) : str :=
  if PyStr.endswith a [SLASH] then a else a ++ [SLASH].

(** The directory part [glob.glob] joins the names it finds to. *)
Definition glob_dir (a : str) : str :=
  if forallb is_slash (join_dir a) then join_dir a
  else OsPath.rstrip_slash (join_dir a).

(** The name ends in one of the four extensions. *)
Definition supported (name : str) : bool :=
  PyStr.endswith name (lit ".swift") || PyStr.endswith name (lit ".plist")
  || PyStr.endswith name (lit ".json")
  || PyStr.endswith name (lit ".entitlements").

(** The names [pack_files] collects from the directory at [s], in the
    order of its four scans. *)
Definition matched (fs : FS) (s : loc) : list str :=
  filter (Glob.selected (lit ".swift")) (listdir fs s)
  ++ filter (Glob.selected (lit ".plist")) (listdir fs s)
  ++ filter (Glob.selected (lit ".json")) (listdir fs s)
  ++ filter (Glob.selected (lit ".entitlements")) (listdir fs s).

(** The text [pack_files] reads from the file named [n] of the
    directory at [s], when its output file is at [o]: a source file
    that is the output file itself has been truncated by then. *)
Definition packed_text (fs : FS) (o s : loc) (n : str) : str :=
  if loc_eq_dec o (s ++ [n]) then []
  else match node_at fs (s ++ [n]) with
       | Some (File c) => universal_newlines c
       | _ => []
       end.

(** The archive [pack_files] writes for the directory at [s]. *)
Definition archive_of (fs : FS) (o s : loc) : str :=
  blocks (with_sep (map (fun n => (n, packed_text fs o s n))
                        (PyStr.sorted (matched fs s)))).

(** The line [unpack_files] prints for an entry. *)
Definition created (output_dir : str) (e : str * str) : str :=
  lit "Created " ++ OsPath.join output_dir (fst e).

(** The text [MARK], [n] and a line feed stands at position [p] of
    [content], and [n] has no line feed. *)
Definition occurs (content : str) (p : nat) (n : str) : Prop :=
  exists a r, content = a ++ MARK ++ n ++ LF :: r
              /\ length a = p /\ no_lf n = true.

(** Position [p] of [content] is the start of a line. *)
Definition line_start (content : str) (p : nat) : bool :=
  match p with
  | 0 => true
  | S k => match nth_error content k with
           | Some c => is_lf c
           | None => false
           end
  end.

(** The text neither begins nor ends with a line feed. *)
Definition boundary_free (c : str) : bool :=
  negb (PyStr.startswith c [LF]) && negb (PyStr.endswith c [LF]).

(** What a run may do at a location: leave the node as it is, make a
    directory where there was nothing, or put a file where there was no
    directory. *)
Definition change_ok (fs fs' : FS) (l : loc) : Prop :=
  node_at fs' l = node_at fs l
  \/ (node_at fs l = None /\ node_at fs' l = Some Dir)
  \/ (node_at fs l <> Some Dir /\ exists w, node_at fs' l = Some (File w)).

Definition grows (fs fs' : FS) : Prop :=
  cwd fs' = cwd fs /\ forall l, change_ok fs fs' l.


(** The two file systems have the same directories and the same
    working directory. *)
Definition same_dirs (fs fs' : FS) : Prop :=
  cwd fs' = cwd fs
  /\ forall l, node_at fs l = Some Dir <-> node_at fs' l = Some Dir.

(** The text of the last entry of [es] whose path, joined to
    [output_dir], names the location [l] in [fs]. *)
Fixpoint last_at (fs : FS) (output_dir : str) (l : loc)
  (es : list (str * str)) : option str :=
  match es with
  | [] => None
  | e :: r =>
      match last_at fs output_dir l r with
      | Some x => Some x
      | None =>
          match resolve fs (OsPath.join output_dir (fst e)) with
          | Ok h => if loc_eq_dec h l then Some (snd e) else None
          | Err _ => None
          end
      end
  end.

(** A home directory with a source directory of two files. *)
Definition fs_demo : FS :=
  mkFS [lit "home"]
    [ ([lit "home"], Dir);
      ([lit "home"; lit "src"], Dir);
      ([lit "home"; lit "src"; lit "b.json"], File (lit "{}"));
      ([lit "home"; lit "src"; lit "A.swift"], File (lit "a"));
      ([lit "home"; lit "docs"], Dir);
      ([lit "home"; lit "docs"; lit "notes.txt"], File (lit "hello")) ].

(** A source directory with a file that begins and ends with blank
    lines. *)
Definition fs_blank : FS :=
  mkFS []
    [ ([lit "src"], Dir);
      ([lit "src"; lit "a.swift"], File ([LF; LF] ++ lit "x" ++ [LF]));
      ([lit "src"; lit "b.swift"], File (lit "y")) ].


End Statements.

(** * Properties *)

(** ** Text *)

Section TextFacts.

Lemma is_lf_true (c : ascii) : is_lf c = true <-> c = LF.
Proof. apply Ascii.eqb_eq. Qed.

Lemma strip_prefix_app (p r : str) : PyStr.strip_prefix p (p ++ r) = Some r.
Proof.
  induction p as [|a p IH]; simpl; [reflexivity|].
  now rewrite Ascii.eqb_refl.
Qed.

Lemma strip_prefix_inv (p s r : str) :
  PyStr.strip_prefix p s = Some r -> s = p ++ r.
Proof.
  revert s; induction p as [|a p IH]; intros s H; simpl in *.
  - now injection H as ->.
  - destruct s as [|b s]; [discriminate|].
    destruct (Ascii.eqb a b) eqn:E; [|discriminate].
    apply Ascii.eqb_eq in E; subst b.
    now rewrite (IH _ H).
Qed.

Lemma lstrip_lf_spec (s : str) :
  exists k, s = repeat LF k ++ PyStr.lstrip_lf s
            /\ (forall t, PyStr.lstrip_lf s <> LF :: t).
Proof.
  induction s as [|c s [k [E N]]]; simpl.
  - exists 0; split; [reflexivity|discriminate].
  - destruct (is_lf c) eqn:L.
    + apply is_lf_true in L; subst c.
      exists (S k); simpl; split; [now rewrite <- E | exact N].
    + exists 0; split; [reflexivity|].
      intros t [= -> _]. now rewrite (proj2 (is_lf_true LF)) in L.
Qed.

Lemma repeat_rev (A : Type) (a : A) (k : nat) : rev (repeat a k) = repeat a k.
Proof.
  induction k as [|k IH]; simpl; [reflexivity|].
  rewrite IH. now rewrite <- repeat_cons.
Qed.

Lemma rstrip_lf_spec (s : str) :
  exists k, s = PyStr.rstrip_lf s ++ repeat LF k
            /\ (forall t, PyStr.rstrip_lf s <> t ++ [LF]).
Proof.
  unfold PyStr.rstrip_lf.
  destruct (lstrip_lf_spec (rev s)) as [k [E N]].
  exists k; split.
  - rewrite <- (rev_involutive s) at 1. rewrite E at 1.
    now rewrite rev_app_distr, repeat_rev.
  - intros t H. apply (N (rev t)).
    rewrite <- (rev_involutive (PyStr.lstrip_lf (rev s))), H.
    now rewrite rev_app_distr.
Qed.

(** [strip] removes a run of line feeds at each end and nothing else. *)
Lemma strip_lf_spec (s : str) :
  exists a b, s = repeat LF a ++ PyStr.strip_lf s ++ repeat LF b
              /\ (forall t, PyStr.strip_lf s <> LF :: t)
              /\ (forall t, PyStr.strip_lf s <> t ++ [LF]).
Proof.
  unfold PyStr.strip_lf.
  destruct (lstrip_lf_spec s) as [a [Ea Na]].
  destruct (rstrip_lf_spec (PyStr.lstrip_lf s)) as [b [Eb Nb]].
  exists a, b; split; [|split].
  - now rewrite <- Eb.
  - intros t H. rewrite H in Eb.
    destruct (PyStr.lstrip_lf s) as [|c u] eqn:Es.
    + discriminate.
    + injection Eb as -> _. now apply (Na u).
  - exact Nb.
Qed.

End TextFacts.

(** ** The scan for markers *)

Section ScanFacts.

Import Re Archive.

Lemma split_line_app (n r : str) :
  no_lf n = true -> split_line (n ++ LF :: r) = Some (n, r).
Proof.
  induction n as [|c n IH]; simpl; intros H.
  - reflexivity.
  - apply andb_prop in H as [Hc Hn].
    apply negb_true_iff in Hc. rewrite Hc.
    now rewrite (IH Hn).
Qed.

Lemma split_line_inv (s l r : str) :
  split_line s = Some (l, r) -> s = l ++ LF :: r /\ no_lf l = true.
Proof.
  revert l r; induction s as [|c s IH]; simpl; intros l r H; [discriminate|].
  destruct (is_lf c) eqn:L.
  - injection H as <- <-. apply is_lf_true in L. now subst c.
  - destruct (split_line s) as [[l' r']|]; [|discriminate].
    injection H as <- <-.
    destruct (IH l' r' eq_refl) as [-> Hl].
    split; [reflexivity|]. simpl. now rewrite L, Hl.
Qed.

Lemma split_line_none (s : str) : split_line s = None <-> no_lf s = true.
Proof.
  induction s as [|c s IH]; simpl; [tauto|].
  destruct (is_lf c); simpl.
  - split; discriminate.
  - destruct (split_line s) as [[l r]|]; [|tauto].
    split; [discriminate|]. intros H. apply IH in H. discriminate.
Qed.

Lemma match_here_block (n r : str) :
  no_lf n = true -> match_here (MARK ++ n ++ LF :: r) = Some n.
Proof.
  intros H. unfold match_here.
  now rewrite strip_prefix_app, split_line_app.
Qed.

Lemma match_here_inv (s n : str) :
  match_here s = Some n ->
  exists r, s = MARK ++ n ++ LF :: r /\ no_lf n = true.
Proof.
  unfold match_here. intros H.
  destruct (PyStr.strip_prefix MARK s) as [t|] eqn:P; [|discriminate].
  destruct (split_line t) as [[l r]|] eqn:S; [|discriminate].
  injection H as ->.
  apply strip_prefix_inv in P. apply split_line_inv in S as [-> Hn].
  now exists r.
Qed.

Lemma scan_skip (a r : str) (q : nat) :
  scan (length a) q (a ++ r) = scan 0 (q + length a) r.
Proof.
  revert q; induction a as [|c a IH]; intros q; simpl.
  - now rewrite Nat.add_0_r.
  - rewrite IH. f_equal. lia.
Qed.

Lemma match_len_block (n : str) :
  match_len n = length (MARK ++ n ++ [LF]).
Proof. unfold match_len. rewrite !length_app. simpl. lia. Qed.

Lemma scan_block (n r : str) (q : nat) :
  no_lf n = true ->
  scan 0 q (MARK ++ n ++ LF :: r)
  = mkMatch q (q + match_len n) n :: scan 0 (q + match_len n) r.
Proof.
  intros H.
  pose proof (match_here_block n r H) as M.
  remember (MARK ++ n ++ LF :: r) as s eqn:Es.
  destruct s as [|c t]; [discriminate|].
  cbn [scan]. rewrite M. f_equal.
  set (a := tl MARK ++ n ++ [LF]).
  assert (Et : t = a ++ r).
  { unfold a. rewrite <- !app_assoc. now injection Es. }
  assert (El : match_len n = S (length a)).
  { unfold a. rewrite match_len_block, !length_app. simpl. lia. }
  rewrite Et, El. cbn [Nat.sub]. rewrite Nat.sub_0_r, scan_skip.
  f_equal. lia.
Qed.

Lemma scan_quiet (t rest : str) (q : nat) :
  quiet t rest = true -> scan 0 q (t ++ rest) = scan 0 (q + length t) rest.
Proof.
  revert q; induction t as [|c t IH]; intros q H.
  - simpl. now rewrite Nat.add_0_r.
  - simpl in H. change ((c :: t) ++ rest) with (c :: t ++ rest) in *.
    simpl scan.
    destruct (match_here (c :: t ++ rest)); [discriminate|].
    rewrite (IH _ H). simpl. f_equal. lia.
Qed.

Lemma length_block (e : str * str) :
  length (block e) = match_len (fst e) + length (snd e).
Proof. unfold block, match_len. rewrite !length_app. simpl. lia. Qed.

Lemma blocks_cons (n sp : str) (raw : list (str * str)) :
  blocks ((n, sp) :: raw) = MARK ++ n ++ LF :: sp ++ blocks raw.
Proof.
  unfold blocks at 1. cbn [flat_map]. unfold block at 1. cbn [fst snd].
  now rewrite <- !app_assoc.
Qed.

Lemma scan_blocks (raw : list (str * str)) (q : nat) :
  parsed raw = true -> scan 0 q (blocks raw) = matches_of q raw.
Proof.
  revert q; induction raw as [|[n sp] raw IH]; intros q H; [reflexivity|].
  simpl in H. apply andb_prop in H as [H Hp]. apply andb_prop in H as [Hn Hq].
  rewrite blocks_cons. cbn [matches_of fst snd].
  rewrite (scan_block n (sp ++ blocks raw) q Hn). f_equal.
  rewrite (scan_quiet sp (blocks raw) _ Hq).
  apply IH, Hp.
Qed.

Lemma scan_parsed (pre : str) (raw : list (str * str)) (q : nat) :
  quiet pre (blocks raw) = true -> parsed raw = true ->
  scan 0 q (pre ++ blocks raw) = matches_of (q + length pre) raw.
Proof.
  intros Hq Hp. rewrite (scan_quiet _ _ _ Hq). now apply scan_blocks.
Qed.

(** Every text divides into what precedes the first match and a
    sequence of blocks. *)
Lemma decompose_bounded (k : nat) (s : str) :
  length s <= k ->
  exists pre raw,
    s = pre ++ blocks raw /\ quiet pre (blocks raw) = true
    /\ parsed raw = true.
Proof.
  revert s; induction k as [|k IH]; intros s Hk.
  - destruct s; [|simpl in Hk; lia].
    exists [], []; repeat split.
  - destruct s as [|c t]; [exists [], []; repeat split|].
    simpl in Hk.
    destruct (match_here (c :: t)) as [n|] eqn:M.
    + destruct (match_here_inv _ _ M) as [r [E Hn]].
      assert (Hr : length r <= k).
      { apply (f_equal (@length ascii)) in E.
        rewrite !length_app in E. simpl in E. lia. }
      destruct (IH r Hr) as [pre [raw [Er [Hq Hp]]]].
      exists [], ((n, pre) :: raw); split; [|split].
      * now rewrite E, blocks_cons, Er.
      * reflexivity.
      * cbn [parsed fst snd]. now rewrite Hn, Hq, Hp.
    + assert (Ht : length t <= k) by lia.
      destruct (IH t Ht) as [pre [raw [Er [Hq Hp]]]].
      exists (c :: pre), raw; split; [|split].
      * now rewrite Er.
      * cbn [quiet]. change ((c :: pre) ++ blocks raw) with (c :: pre ++ blocks raw).
        now rewrite <- Er, M.
      * exact Hp.
Qed.

Lemma decompose (s : str) :
  exists pre raw,
    s = pre ++ blocks raw /\ quiet pre (blocks raw) = true
    /\ parsed raw = true.
Proof. apply (decompose_bounded (length s)). lia. Qed.

Lemma blocks_app (a b : list (str * str)) : blocks (a ++ b) = blocks a ++ blocks b.
Proof. apply flat_map_app. Qed.

Lemma matches_of_app (a b : list (str * str)) (p : nat) :
  matches_of p (a ++ b) = matches_of p a ++ matches_of (p + length (blocks a)) b.
Proof.
  revert p; induction a as [|e a IH]; intros p.
  - cbn. now rewrite Nat.add_0_r.
  - cbn [app matches_of]. f_equal. rewrite IH. do 2 f_equal.
    unfold blocks. cbn [flat_map]. rewrite length_app, length_block. lia.
Qed.

Lemma length_matches_of (raw : list (str * str)) (p : nat) :
  length (matches_of p raw) = length raw.
Proof. revert p; induction raw; intros; simpl; auto. Qed.

Lemma slice_middle (a b c : str) :
  PyStr.slice (a ++ b ++ c) (length a) (length a + length b) = b.
Proof.
  unfold PyStr.slice.
  rewrite skipn_app, skipn_all, Nat.sub_diag. simpl.
  replace (length a + length b - length a) with (length b) by lia.
  rewrite firstn_app, firstn_all, Nat.sub_diag. simpl. apply app_nil_r.
Qed.

Lemma slice_at (a b c : str) (p q : nat) :
  p = length a -> q = p + length b -> PyStr.slice (a ++ b ++ c) p q = b.
Proof. intros -> ->. apply slice_middle. Qed.

(** The loop of [unpack_files] on a text divided into blocks takes the
    name and the stripped span of each block. *)
Lemma entries_of_blocks (pre : str) (done todo : list (str * str)) :
  entries_of (pre ++ blocks (done ++ todo))
             (matches_of (length pre) (done ++ todo))
             (length done)
             (matches_of (length pre + length (blocks done)) todo)
  = map (fun e => (fst e, PyStr.strip_lf (snd e))) todo.
Proof.
  revert done; induction todo as [|[n sp] todo IH]; intros done; [reflexivity|].
  cbn [matches_of entries_of map fst snd m_group1 m_end m_start].
  f_equal.
  - f_equal. f_equal.
    set (p := length pre + length (blocks done)).
    assert (Hend :
      (if length done + 1 <? length (matches_of (length pre) (done ++ (n, sp) :: todo))
       then m_start (nth (length done + 1)
                      (matches_of (length pre) (done ++ (n, sp) :: todo))
                      (mkMatch p (p + match_len n) n))
       else length (pre ++ blocks (done ++ (n, sp) :: todo)))
      = p + match_len n + length sp).
    { rewrite length_matches_of, length_app, blocks_app, !length_app.
      rewrite matches_of_app. fold p.
      destruct todo as [|e todo].
      - replace (length done + 1 <? length done + length [(n, sp)]) with false
          by (symmetry; apply Nat.ltb_ge; simpl; lia).
        change (blocks [(n, sp)]) with (block (n, sp) ++ []).
        rewrite app_nil_r, length_block. cbn [fst snd]. unfold p. lia.
      - replace (length done + 1 <? length done + length ((n, sp) :: e :: todo))
          with true by (symmetry; apply Nat.ltb_lt; simpl; lia).
        rewrite app_nth2; rewrite length_matches_of; [|lia].
        replace (length done + 1 - length done) with 1 by lia.
        cbn [matches_of nth m_start fst snd]. lia. }
    rewrite Hend.
    assert (Ec : pre ++ blocks (done ++ (n, sp) :: todo)
                 = (pre ++ blocks done ++ MARK ++ n ++ [LF]) ++ sp ++ blocks todo).
    { rewrite blocks_app, blocks_cons, <- !app_assoc. reflexivity. }
    rewrite Ec. apply slice_at.
    + unfold p. rewrite match_len_block, !length_app. lia.
    + reflexivity.
  - specialize (IH (done ++ [(n, sp)])).
    rewrite <- !app_assoc in IH. cbn [app] in IH.
    rewrite length_app in IH. cbn [length] in IH.
    rewrite Nat.add_1_r in IH.
    rewrite <- IH. do 2 f_equal.
    rewrite blocks_app, length_app.
    change (blocks [(n, sp)]) with (block (n, sp) ++ []).
    rewrite app_nil_r, length_block. cbn [fst snd]. lia.
Qed.

Lemma entries_blocks (pre : str) (raw : list (str * str)) :
  quiet pre (blocks raw) = true -> parsed raw = true ->
  entries (pre ++ blocks raw)
  = map (fun e => (fst e, PyStr.strip_lf (snd e))) raw.
Proof.
  intros Hq Hp. unfold entries, finditer.
  rewrite (scan_parsed pre raw 0 Hq Hp). simpl.
  pose proof (entries_of_blocks pre [] raw) as H.
  simpl in H. now rewrite Nat.add_0_r in H.
Qed.

End ScanFacts.

(** ** The file system *)

Section FsFacts.

Import Fs.

Lemma assoc_put_same (l : loc) (n : node) (ns : list (loc * node)) :
  assoc l (put l n ns) = Some n.
Proof.
  induction ns as [|[k m] ns IH]; simpl.
  - now destruct (loc_eq_dec l l).
  - destruct (loc_eq_dec k l) as [E|E]; simpl.
    + now destruct (loc_eq_dec k l).
    + now destruct (loc_eq_dec k l).
Qed.

Lemma assoc_put_other (l l' : loc) (n : node) (ns : list (loc * node)) :
  l <> l' -> assoc l' (put l n ns) = assoc l' ns.
Proof.
  intros D. induction ns as [|[k m] ns IH]; simpl.
  - now destruct (loc_eq_dec l l').
  - destruct (loc_eq_dec k l) as [E|E]; simpl.
    + subst k. now destruct (loc_eq_dec l l').
    + destruct (loc_eq_dec k l'); [reflexivity|exact IH].
Qed.

Lemma node_at_set_same (fs : FS) (l : loc) (n : node) :
  l <> [] -> node_at (set_node fs l n) l = Some n.
Proof.
  intros D. destruct l; [contradiction|]. apply assoc_put_same.
Qed.

Lemma node_at_set_other (fs : FS) (l l' : loc) (n : node) :
  l <> l' -> node_at (set_node fs l n) l' = node_at fs l'.
Proof.
  intros D. destruct l'; [reflexivity|]. now apply assoc_put_other.
Qed.

Lemma keeps_dirs_refl (fs : FS) : keeps_dirs fs fs.
Proof. split; auto. Qed.

Lemma keeps_dirs_trans (a b c : FS) :
  keeps_dirs a b -> keeps_dirs b c -> keeps_dirs a c.
Proof.
  intros [C1 D1] [C2 D2]. split; [congruence|auto].
Qed.

Lemma keeps_dirs_set (fs : FS) (l : loc) (n : node) :
  node_at fs l <> Some Dir -> keeps_dirs fs (set_node fs l n).
Proof.
  intros H. split; [reflexivity|]. intros l' Hd.
  rewrite node_at_set_other; [exact Hd|]. intros ->. contradiction.
Qed.

Lemma walk_keeps (fs fs' : FS) (comps : list str) (cur l : loc) :
  keeps_dirs fs fs' -> walk fs cur comps = Ok l -> walk fs' cur comps = Ok l.
Proof.
  intros [_ K]. revert cur; induction comps as [|c rest IH]; intros cur H.
  - exact H.
  - simpl in *.
    destruct (node_at fs cur) as [[|]|] eqn:N; try discriminate.
    rewrite (K _ N).
    destruct (is_cur c); [now apply IH|].
    destruct (is_parent c); now apply IH.
Qed.

Lemma resolve_keeps (fs fs' : FS) (p : str) (l : loc) :
  keeps_dirs fs fs' -> resolve fs p = Ok l -> resolve fs' p = Ok l.
Proof.
  intros K H. destruct p as [|c p]; [discriminate|].
  unfold resolve, start in *. rewrite (proj1 K).
  now apply (walk_keeps fs fs').
Qed.

Lemma extends_keeps (fs fs' : FS) : extends fs fs' -> keeps_dirs fs fs'.
Proof. intros [C E]. split; auto. Qed.

Lemma extends_refl (fs : FS) : extends fs fs.
Proof. split; auto. Qed.

Lemma extends_trans (a b c : FS) : extends a b -> extends b c -> extends a c.
Proof. intros [C1 E1] [C2 E2]. split; [congruence|auto]. Qed.

Lemma extends_set (fs : FS) (l : loc) (n : node) :
  node_at fs l = None -> extends fs (set_node fs l n).
Proof.
  intros H. split; [reflexivity|]. intros l' m Hm.
  rewrite node_at_set_other; [exact Hm|]. intros ->. congruence.
Qed.

(** What [mkdirs] does: it only adds directories, and when it succeeds
    the path names a directory. *)
Lemma mkdirs_spec (comps : list str) (fs : FS) (cur : loc) :
  let fs' := fst (mkdirs fs cur comps) in
  extends fs fs'
  /\ (forall l, node_at fs' l = node_at fs l \/
                (node_at fs l = None /\ node_at fs' l = Some Dir))
  /\ (snd (mkdirs fs cur comps) = None ->
      exists d, walk fs' cur comps = Ok d /\ node_at fs' d = Some Dir).
Proof.
  revert fs cur; induction comps as [|c rest IH]; intros fs cur; cbn zeta.
  - simpl. destruct (node_at fs cur) as [[|]|] eqn:N; simpl;
      (split; [apply extends_refl|split; [now left|]]); try discriminate.
    intros _. now exists cur.
  - simpl. destruct (node_at fs cur) as [[|]|] eqn:N; simpl;
      try (split; [apply extends_refl|split; [now left|discriminate]]).
    destruct (is_cur c) eqn:Ec.
    { destruct (IH fs cur) as [E [A S]]. split; [exact E|split; [exact A|]].
      intros Hs. destruct (S Hs) as [d [W D]]. exists d. split; [|exact D].
      cbn [walk]. now rewrite ?Ec, (proj2 E _ _ N). }
    destruct (is_parent c) eqn:Ep.
    { destruct (IH fs (removelast cur)) as [E [A S]].
      split; [exact E|split; [exact A|]].
      intros Hs. destruct (S Hs) as [d [W D]]. exists d. split; [|exact D].
      cbn [walk]. now rewrite ?Ec, ?Ep, (proj2 E _ _ N). }
    destruct (node_at fs (cur ++ [c])) as [m|] eqn:M.
    { destruct (IH fs (cur ++ [c])) as [E [A S]].
      split; [exact E|split; [exact A|]].
      intros Hs. destruct (S Hs) as [d [W D]]. exists d. split; [|exact D].
      cbn [walk]. now rewrite ?Ec, ?Ep, (proj2 E _ _ N). }
    destruct (IH (set_node fs (cur ++ [c]) Dir) (cur ++ [c])) as [E [A S]].
    pose proof (extends_set fs (cur ++ [c]) Dir M) as E0.
    split; [exact (extends_trans _ _ _ E0 E)|split].
    + intros l. destruct (A l) as [H|[H1 H2]].
      * destruct (loc_eq_dec (cur ++ [c]) l) as [<-|D].
        -- right. split; [exact M|]. rewrite H.
           apply node_at_set_same. now destruct cur.
        -- left. rewrite H. now apply node_at_set_other.
      * right. split; [|exact H2].
        destruct (loc_eq_dec (cur ++ [c]) l) as [<-|D]; [exact M|].
        now rewrite node_at_set_other in H1.
    + intros Hs. destruct (S Hs) as [d [W D]]. exists d. split; [|exact D].
      cbn [walk]. now rewrite ?Ec, ?Ep, (proj2 (extends_trans _ _ _ E0 E) _ _ N).
Qed.

End FsFacts.

(** ** Paths *)

Section PathFacts.

Import Fs.

Lemma split_slash_not_nil (s : str) : split_slash s <> [].
Proof.
  destruct s as [|c s]; simpl; [discriminate|].
  destruct (is_slash c); [discriminate|].
  destruct (split_slash s); discriminate.
Qed.

Lemma split_slash_app (a b : str) :
  split_slash (a ++ SLASH :: b) = split_slash a ++ split_slash b.
Proof.
  induction a as [|c a IH]; simpl.
  - reflexivity.
  - rewrite IH. destruct (is_slash c); [reflexivity|].
    destruct (split_slash a) eqn:E; [|reflexivity].
    now destruct (split_slash_not_nil a).
Qed.

Lemma split_slash_plain (n : str) : no_slash n = true -> split_slash n = [n].
Proof.
  induction n as [|c n IH]; simpl; intros H; [reflexivity|].
  apply andb_prop in H as [Hc Hn]. apply negb_true_iff in Hc.
  now rewrite Hc, (IH Hn).
Qed.

Lemma walk_app (fs : FS) (a b : list str) (cur : loc) :
  walk fs cur (a ++ b)
  = match walk fs cur a with Ok l => walk fs l b | Err e => Err e end.
Proof.
  revert cur; induction a as [|c a IH]; intros cur; simpl; [reflexivity|].
  destruct (node_at fs cur) as [[|]|]; try reflexivity.
  destruct (is_cur c); [apply IH|].
  destruct (is_parent c); apply IH.
Qed.

Lemma walk_empties (fs : FS) (k : nat) (cur l : loc) :
  walk fs cur (repeat [] k) = Ok l -> l = cur.
Proof.
  induction k as [|k IH]; simpl; intros H.
  - now injection H.
  - destruct (node_at fs cur) as [[|]|]; try discriminate. now apply IH.
Qed.

Lemma walk_name (fs : FS) (cur : loc) (n : str) :
  node_at fs cur = Some Dir -> plain n = true ->
  walk fs cur [n] = Ok (cur ++ [n]).
Proof.
  intros N P. unfold plain in P.
  apply andb_prop in P as [P Hp]. apply andb_prop in P as [_ Hc].
  apply negb_true_iff in Hp, Hc. simpl. now rewrite N, Hc, Hp.
Qed.

Lemma split_slash_repeat (k : nat) :
  split_slash (repeat SLASH k) = repeat [] (S k).
Proof.
  induction k as [|k IH]; [reflexivity|].
  cbn [repeat split_slash]. rewrite IH. reflexivity.
Qed.

Lemma endswith_slash (a : str) :
  PyStr.endswith a [SLASH] = true -> exists a', a = a' ++ [SLASH].
Proof.
  unfold PyStr.endswith, PyStr.startswith. cbn [rev app].
  destruct (rev a) as [|c r] eqn:E; cbn [PyStr.strip_prefix]; [discriminate|].
  destruct (Ascii.eqb SLASH c) eqn:C; [|discriminate]. intros _.
  apply Ascii.eqb_eq in C. subst c.
  exists (rev r). rewrite <- (rev_involutive a), E. reflexivity.
Qed.

Lemma startswith_slash_plain (n : str) :
  no_slash n = true -> PyStr.startswith n [SLASH] = false.
Proof.
  destruct n as [|c n]; [reflexivity|]. simpl. intros H.
  apply andb_prop in H as [Hc _]. apply negb_true_iff in Hc.
  unfold PyStr.startswith. cbn [PyStr.strip_prefix]. unfold is_slash in Hc.
  rewrite Ascii.eqb_sym, Hc. reflexivity.
Qed.

(** Joining a non-empty path and a name without a slash: the joined
    path is the directory part, with a slash at its end, and the name. *)
Lemma join_plain (a n : str) :
  a <> [] -> no_slash n = true ->
  exists a', OsPath.join a n = a' ++ SLASH :: n
             /\ (a = a' \/ a = a' ++ [SLASH])
             /\ join_dir a = a' ++ [SLASH].
Proof.
  intros Ha Hn. unfold OsPath.join, join_dir.
  rewrite (startswith_slash_plain n Hn).
  destruct a as [|c a]; [contradiction|]. cbn [orb].
  destruct (PyStr.endswith (c :: a) [SLASH]) eqn:E.
  - destruct (endswith_slash _ E) as [a' Ea]. exists a'. rewrite Ea.
    split; [now rewrite <- app_assoc|split; [now right|reflexivity]].
  - exists (c :: a). split; [reflexivity|split; [now left|reflexivity]].
Qed.

Lemma isabs_cons (c : ascii) (x : str) : isabs (c :: x) = is_slash c.
Proof.
  unfold isabs, PyStr.startswith, is_slash. cbn [PyStr.strip_prefix].
  rewrite Ascii.eqb_sym. now destruct (Ascii.eqb c SLASH).
Qed.

Lemma resolve_split (fs : FS) (a b : str) :
  a <> [] ->
  resolve fs (a ++ SLASH :: b)
  = match resolve fs a with
    | Ok l => walk fs l (split_slash b)
    | Err e => Err e
    end.
Proof.
  intros Ha. destruct a as [|c a]; [contradiction|].
  unfold resolve, start. cbn [app]. rewrite !isabs_cons.
  change (c :: a ++ SLASH :: b) with ((c :: a) ++ SLASH :: b).
  now rewrite split_slash_app, walk_app.
Qed.

Lemma resolve_app_slash (fs : FS) (a : str) (l : loc) :
  a <> [] -> resolve fs (a ++ [SLASH]) = Ok l ->
  resolve fs a = Ok l /\ node_at fs l = Some Dir.
Proof.
  intros Ha. rewrite (resolve_split fs a [] Ha).
  destruct (resolve fs a) as [d|e]; [|discriminate].
  cbn [split_slash walk]. destruct (node_at fs d) as [[|]|] eqn:N; try discriminate.
  cbn. intros [= <-]. now split.
Qed.

Lemma resolve_root_name (fs : FS) (n : str) :
  plain n = true -> resolve fs (SLASH :: n) = Ok [n].
Proof.
  intros P.
  assert (Hn : no_slash n = true).
  { unfold plain in P. apply andb_prop in P as [P _].
    now apply andb_prop in P as [P _]. }
  unfold resolve, start. rewrite isabs_cons.
  change (SLASH :: n) with ([] ++ SLASH :: n).
  rewrite split_slash_app, (split_slash_plain n Hn).
  change (is_slash SLASH) with true. cbn [split_slash app walk node_at].
  change (is_cur []) with true. cbv iota.
  change (walk fs [] [n] = Ok ([] ++ [n])). now apply walk_name.
Qed.

Lemma resolve_join (fs : FS) (a n : str) (d : loc) :
  resolve fs a = Ok d -> node_at fs d = Some Dir -> plain n = true ->
  resolve fs (OsPath.join a n) = Ok (d ++ [n]).
Proof.
  intros R N P.
  assert (Ha : a <> []) by (intros ->; discriminate).
  assert (Hn : no_slash n = true).
  { unfold plain in P. apply andb_prop in P as [P _].
    now apply andb_prop in P as [P _]. }
  destruct (join_plain a n Ha Hn) as [a' [-> [[<-|Ea] _]]].
  - rewrite (resolve_split fs a n Ha), R, (split_slash_plain n Hn).
    now apply walk_name.
  - subst a. destruct a' as [|c a'].
    + cbn [app] in *. unfold resolve, start in R. cbn in R. injection R as <-.
      now apply resolve_root_name.
    + assert (Hc : c :: a' <> []) by discriminate.
      destruct (resolve_app_slash fs (c :: a') d Hc R) as [R' _].
      rewrite (resolve_split fs (c :: a') n Hc), R', (split_slash_plain n Hn).
      now apply walk_name.
Qed.

End PathFacts.

(** ** The directory scan of [pack_files] *)

Section GlobFacts.

Import Fs.

Lemma rstrip_slash_spec (s : str) :
  exists k, s = OsPath.rstrip_slash s ++ repeat SLASH k.
Proof.
  unfold OsPath.rstrip_slash.
  set (drop := fix drop (r : str) : str :=
                 match r with
                 | c :: t => if is_slash c then drop t else r
                 | [] => []
                 end).
  assert (H : forall r, exists k, rev r = rev (drop r) ++ repeat SLASH k).
  { induction r as [|c r [k IH]].
    - now exists 0.
    - cbn [drop]. destruct (is_slash c) eqn:C.
      + apply Ascii.eqb_eq in C. subst c. exists (S k).
        cbn [rev]. rewrite IH, <- app_assoc. f_equal.
        symmetry. apply (repeat_cons k SLASH).
      + exists 0. now rewrite app_nil_r. }
  destruct (H (rev s)) as [k Hk]. exists k.
  now rewrite rev_involutive in Hk.
Qed.

Lemma forallb_repeat_slash (k : nat) : forallb is_slash (repeat SLASH k) = true.
Proof. induction k; [reflexivity|exact IHk]. Qed.

Lemma basename_join (a' n : str) :
  no_slash n = true -> OsPath.basename (a' ++ SLASH :: n) = n.
Proof.
  intros Hn. unfold OsPath.basename.
  rewrite split_slash_app, (split_slash_plain n Hn). apply last_last.
Qed.

Lemma has_magic_app (a b : str) :
  Glob.has_magic (a ++ b) = Glob.has_magic a || Glob.has_magic b.
Proof. apply existsb_app. Qed.

(** The directory part of the pattern names the source directory. *)
Lemma dirname_join (fs : FS) (src n : str) (s : loc) :
  no_slash n = true -> Glob.has_magic src = false ->
  resolve fs src = Ok s -> node_at fs s = Some Dir ->
  let gd := OsPath.dirname (OsPath.join src n) in
  OsPath.basename (OsPath.join src n) = n
  /\ gd = glob_dir src
  /\ gd <> [] /\ Glob.has_magic gd = false /\ resolve fs gd = Ok s.
Proof.
  intros Hn Hm R N gd.
  assert (Ha : src <> []) by (intros ->; discriminate).
  destruct (join_plain src n Ha Hn) as [a' [Ej [Ea Ed]]].
  assert (Eb : OsPath.basename (OsPath.join src n) = n)
    by (rewrite Ej; now apply basename_join).
  split; [exact Eb|].
  set (head := a' ++ [SLASH]).
  assert (Eh : firstn (length (OsPath.join src n) - length n) (OsPath.join src n)
               = head).
  { rewrite Ej. replace (a' ++ SLASH :: n) with (head ++ n)
      by (unfold head; now rewrite <- app_assoc).
    rewrite length_app, Nat.add_sub, firstn_app, Nat.sub_diag, firstn_all.
    cbn. apply app_nil_r. }
  assert (Rh : resolve fs head = Ok s).
  { destruct Ea as [<-|Ea].
    - unfold head. rewrite (resolve_split fs src [] Ha), R.
      cbn [split_slash walk]. now rewrite N.
    - unfold head. now rewrite <- Ea. }
  assert (Mh : Glob.has_magic head = false).
  { destruct Ea as [<-|Ea].
    - unfold head. rewrite has_magic_app, Hm. reflexivity.
    - unfold head. now rewrite <- Ea. }
  assert (Eg : gd = if forallb is_slash head then head else OsPath.rstrip_slash head).
  { unfold gd, OsPath.dirname. cbv zeta. now rewrite Eb, Eh. }
  split; [unfold glob_dir; now rewrite Ed|].
  destruct (forallb is_slash head) eqn:F; rewrite Eg.
  - split; [|split; assumption]. unfold head. now destruct a'.
  - destruct (rstrip_slash_spec head) as [k Ek].
    set (x := OsPath.rstrip_slash head) in *.
    assert (Hx : x <> []).
    { intros Hx. rewrite Hx in Ek. cbn in Ek.
      rewrite Ek, forallb_repeat_slash in F. discriminate. }
    split; [exact Hx|split].
    + rewrite Ek, has_magic_app in Mh. now apply orb_false_iff in Mh.
    + destruct k as [|k]; [rewrite app_nil_r in Ek; now rewrite <- Ek|].
      rewrite Ek in Rh. cbn [repeat] in Rh.
      rewrite (resolve_split fs x _ Hx), split_slash_repeat in Rh.
      destruct (resolve fs x) as [l|e]; [|discriminate].
      now rewrite (walk_empties fs _ _ _ Rh).
Qed.

Lemma scandir_dir (fs : FS) (gd : str) (s : loc) :
  resolve fs gd = Ok s -> node_at fs s = Some Dir ->
  Glob.scandir fs gd = listdir fs s.
Proof. intros R N. unfold Glob.scandir. now rewrite R, N. Qed.

Lemma glob_join (fs : FS) (src ext : str) (s : loc) :
  no_slash ext = true -> Glob.has_magic ext = false ->
  Glob.has_magic src = false ->
  resolve fs src = Ok s -> node_at fs s = Some Dir ->
  let gd := OsPath.dirname (OsPath.join src (ascii_of_nat 42 :: ext)) in
  Glob.glob fs (OsPath.join src (ascii_of_nat 42 :: ext))
  = Some (map (OsPath.join gd) (filter (Glob.selected ext) (listdir fs s))).
Proof.
  intros He Hme Hm R N gd.
  assert (Hn : no_slash (ascii_of_nat 42 :: ext) = true) by exact He.
  destruct (dirname_join fs src _ s Hn Hm R N) as [Eb [_ [Hg [Mg Rg]]]].
  fold gd in Hg, Mg, Rg.
  unfold Glob.glob. cbv zeta. fold gd. rewrite Eb.
  destruct gd as [|c g] eqn:Eg; [contradiction|].
  rewrite Ascii.eqb_refl, Hme, Mg. cbn [negb andb].
  now rewrite (scandir_dir fs _ s Rg N).
Qed.

End GlobFacts.

(** ** Runs that stop early *)

Section EarlyExit.

Import Fs.

Lemma makedirs_spec (fs fs1 : FS) (p : str) (e : option errno) :
  makedirs fs p = (fs1, e) ->
  extends fs fs1
  /\ (forall l, node_at fs1 l = node_at fs l \/
                (node_at fs l = None /\ node_at fs1 l = Some Dir))
  /\ (e = None -> isdir fs1 p = true).
Proof.
  unfold makedirs. destruct p as [|c p].
  - intros [= <- <-]. split; [apply extends_refl|split; [now left|discriminate]].
  - intros H. pose proof (mkdirs_spec (split_slash (c :: p)) fs (start fs (c :: p))) as S.
    cbv zeta in S. rewrite H in S. cbn [fst snd] in S.
    destruct S as [E [A S]]. split; [exact E|split; [exact A|]].
    intros He. destruct (S He) as [d [W D]].
    unfold isdir, resolve, start in *. rewrite (proj1 E), W, D. reflexivity.
Qed.

Lemma read_text_keeps (fs fs' : FS) (p : str) (t : str) :
  keeps_dirs fs fs' ->
  (forall l c, node_at fs l = Some (File c) -> node_at fs' l = Some (File c)) ->
  read_text fs p = Ok t -> read_text fs' p = Ok t.
Proof.
  intros K F. unfold read_text.
  destruct (resolve fs p) as [l|] eqn:R; [|discriminate].
  rewrite (resolve_keeps fs fs' p l K R).
  destruct (node_at fs l) as [[c|]|] eqn:N; try discriminate.
  now rewrite (F _ _ N).
Qed.

Lemma read_text_extends (fs fs' : FS) (p : str) (t : str) :
  extends fs fs' -> read_text fs p = Ok t -> read_text fs' p = Ok t.
Proof.
  intros E. apply read_text_keeps; [now apply extends_keeps|].
  intros l c. apply (proj2 E).
Qed.

Lemma read_text_exists (fs : FS) (p t : str) :
  read_text fs p = Ok t -> exists_ fs p = true.
Proof.
  unfold read_text, exists_.
  destruct (resolve fs p) as [l|]; [|discriminate].
  now destruct (node_at fs l) as [[c|]|].
Qed.



(** The four scans of [pack_files], for a source directory whose path
    has no metacharacter. *)
Lemma pack_files_scans (fs : FS) (src : str) (s : loc) :
  Glob.has_magic src = false ->
  resolve fs src = Ok s -> node_at fs s = Some Dir ->
  let gd := glob_dir src in
    resolve fs gd = Ok s
    /\ Glob.glob fs (OsPath.join src (lit "*.swift"))
       = Some (map (OsPath.join gd)
                   (filter (Glob.selected (lit ".swift")) (listdir fs s)))
    /\ Glob.glob fs (OsPath.join src (lit "*.plist"))
       = Some (map (OsPath.join gd)
                   (filter (Glob.selected (lit ".plist")) (listdir fs s)))
    /\ Glob.glob fs (OsPath.join src (lit "*.json"))
       = Some (map (OsPath.join gd)
                   (filter (Glob.selected (lit ".json")) (listdir fs s)))
    /\ Glob.glob fs (OsPath.join src (lit "*.entitlements"))
       = Some (map (OsPath.join gd)
                   (filter (Glob.selected (lit ".entitlements")) (listdir fs s))).
Proof.
  intros Hm R N.
  assert (D : forall n, no_slash n = true ->
    OsPath.dirname (OsPath.join src n) = glob_dir src
    /\ resolve fs (glob_dir src) = Ok s).
  { intros n Hn.
    destruct (dirname_join fs src n s Hn Hm R N) as [_ [E [_ [_ Rg]]]].
    split; [exact E|now rewrite <- E]. }
  cbv zeta.
  split; [apply (D (lit "*.swift") eq_refl)|].
  split; [|split; [|split]].
  - rewrite <- (proj1 (D (lit "*.swift") eq_refl)).
    now apply (glob_join fs src (lit ".swift") s).
  - rewrite <- (proj1 (D (lit "*.plist") eq_refl)).
    now apply (glob_join fs src (lit ".plist") s).
  - rewrite <- (proj1 (D (lit "*.json") eq_refl)).
    now apply (glob_join fs src (lit ".json") s).
  - rewrite <- (proj1 (D (lit "*.entitlements") eq_refl)).
    now apply (glob_join fs src (lit ".entitlements") s).
Qed.

Lemma isdir_resolved (fs : FS) (p : str) (l : loc) :
  resolve fs p = Ok l -> node_at fs l = Some Dir -> isdir fs p = true.
Proof. intros R N. unfold isdir. now rewrite R, N. Qed.

End EarlyExit.

(** ** Where the markers are *)

Section MarkerFacts.

Import Re Archive.

Lemma occurs_match_here (content : str) (p : nat) (n : str) :
  occurs content p n <-> match_here (skipn p content) = Some n.
Proof.
  split.
  - intros [a [r [-> [<- Hn]]]].
    rewrite skipn_app, skipn_all, Nat.sub_diag. cbn [skipn app].
    now apply match_here_block.
  - intros H. destruct (match_here_inv _ _ H) as [r [E Hn]].
    exists (firstn p content), r. split; [|split; [|exact Hn]].
    + rewrite <- E. symmetry. apply firstn_skipn.
    + apply firstn_length_le.
      destruct (Nat.le_gt_cases p (length content)) as [L|L]; [exact L|].
      rewrite skipn_all2 in H by lia. discriminate.
Qed.

Lemma parsed_app (r1 r2 : list (str * str)) :
  parsed (r1 ++ r2) = true -> parsed r2 = true.
Proof.
  induction r1 as [|e r1 IH]; [auto|]. cbn [app parsed]. intros H.
  apply andb_prop in H as [_ H]. now apply IH.
Qed.

Lemma matches_of_in (raw : list (str * str)) (p : nat) (m : Match) :
  In m (matches_of p raw) ->
  exists r1 e r2,
    raw = r1 ++ e :: r2
    /\ m = mkMatch (p + length (blocks r1))
                   (p + length (blocks r1) + match_len (fst e)) (fst e).
Proof.
  revert p; induction raw as [|e raw IH]; intros p; [intros []|].
  cbn [matches_of]. intros [<-|H].
  - exists [], e, raw. cbn. now rewrite Nat.add_0_r.
  - destruct (IH _ H) as [r1 [e' [r2 [-> ->]]]].
    exists (e :: r1), e', r2. split; [reflexivity|].
    change (blocks (e :: r1)) with (block e ++ blocks r1).
    rewrite length_app, length_block. f_equal; lia.
Qed.

(** Every match of [finditer] is an occurrence of a marker, from its
    start to its end. *)
Lemma finditer_sound (content : str) (m : Match) :
  In m (finditer content) ->
  occurs content (m_start m) (m_group1 m)
  /\ m_end m = m_start m + match_len (m_group1 m).
Proof.
  destruct (decompose content) as [pre [raw [E [Hq Hp]]]].
  unfold finditer. rewrite E at 1. rewrite (scan_parsed pre raw 0 Hq Hp).
  intros H. destruct (matches_of_in _ _ _ H) as [r1 [[n sp] [r2 [-> ->]]]].
  cbn [m_start m_end m_group1 fst]. split; [|reflexivity].
  exists (pre ++ blocks r1), (sp ++ blocks r2). split; [|split].
  - now rewrite E, blocks_app, blocks_cons, <- !app_assoc.
  - rewrite length_app. cbn. lia.
  - apply parsed_app in Hp. cbn [parsed fst] in Hp.
    apply andb_prop in Hp as [Hp _]. now apply andb_prop in Hp as [Hp _].
Qed.

(** Every occurrence of a marker is a match or lies inside one. *)
Lemma scan_covers (s : str) (skip q p : nat) (n : str) :
  skip <= p -> match_here (skipn p s) = Some n ->
  exists m, In m (scan skip q s) /\ m_start m <= q + p < m_end m.
Proof.
  revert skip q p; induction s as [|c t IH]; intros skip q p Hs H.
  - rewrite skipn_nil in H. discriminate.
  - destruct skip as [|k].
    + cbn [scan]. destruct (match_here (c :: t)) as [name|] eqn:M.
      * destruct (Nat.lt_ge_cases p (match_len name)) as [L|L].
        -- exists (mkMatch q (q + match_len name) name). split; [now left|].
           cbn [m_start m_end]. lia.
        -- assert (Hl : 1 <= match_len name) by (unfold match_len; lia).
           destruct p as [|p]; [lia|]. cbn [skipn] in H.
           destruct (IH (match_len name - 1) (S q) p ltac:(lia) H) as [m [Hi Hm]].
           exists m. split; [now right|lia].
      * destruct p as [|p]; [cbn [skipn] in H; congruence|]. cbn [skipn] in H.
        destruct (IH 0 (S q) p ltac:(lia) H) as [m [Hi Hm]].
        exists m. split; [exact Hi|lia].
    + destruct p as [|p]; [lia|]. cbn [skipn scan] in *.
      destruct (IH k (S q) p ltac:(lia) H) as [m [Hi Hm]].
      exists m. split; [exact Hi|lia].
Qed.

Lemma no_lf_app (a b : str) : no_lf (a ++ b) = no_lf a && no_lf b.
Proof. apply forallb_app. Qed.

Lemma no_lf_nth (s : str) (k : nat) (c : ascii) :
  no_lf s = true -> nth_error s k = Some c -> is_lf c = false.
Proof.
  intros H N. apply nth_error_In in N.
  unfold no_lf in H. rewrite forallb_forall in H.
  apply negb_true_iff. now apply H.
Qed.

Lemma occurs_unique (content : str) (p : nat) (n n' : str) :
  occurs content p n -> occurs content p n' -> n = n'.
Proof.
  intros H H'. apply occurs_match_here in H, H'. congruence.
Qed.

(** An occurrence that starts a line is a match. *)
Lemma finditer_line_start (content : str) (p : nat) (n : str) :
  occurs content p n -> line_start content p = true ->
  In (mkMatch p (p + match_len n) n) (finditer content).
Proof.
  intros O L.
  destruct (scan_covers content 0 0 p n (Nat.le_0_l p)) as [m [Hi Hm]];
    [now apply occurs_match_here|].
  fold (finditer content) in Hi. cbn [Nat.add] in Hm.
  destruct (finditer_sound content m Hi) as [Om Em].
  destruct (Nat.eq_dec (m_start m) p) as [Ep|Np].
  - rewrite Ep in Om. rewrite (occurs_unique _ _ _ _ O Om).
    rewrite <- Ep at 1 2. rewrite <- Em. now destruct m.
  - exfalso. destruct p as [|k]; [lia|]. cbn [line_start] in L.
    destruct Om as [a [r [E [La Hn]]]].
    destruct (nth_error content k) as [c|] eqn:N; [|discriminate].
    rewrite E in N. rewrite nth_error_app2 in N by lia.
    rewrite app_assoc in N.
    rewrite nth_error_app1 in N.
    + assert (Hl : no_lf (MARK ++ m_group1 m) = true)
        by (rewrite no_lf_app, Hn; reflexivity).
      rewrite (no_lf_nth _ _ _ Hl N) in L. discriminate.
    + rewrite Em in Hm. unfold match_len in Hm. rewrite length_app. lia.
Qed.

(** A last line without a line feed holds no match. *)
Lemma split_line_app_no_lf (r tail : str) :
  no_lf tail = true ->
  split_line (r ++ tail)
  = match split_line r with
    | Some (l, x) => Some (l, x ++ tail)
    | None => None
    end.
Proof.
  intros H. induction r as [|c r IH]; cbn [app split_line].
  - now apply split_line_none.
  - destruct (is_lf c); [reflexivity|]. rewrite IH.
    now destruct (split_line r) as [[l x]|].
Qed.

Lemma strip_prefix_short (p s tail r : str) :
  PyStr.strip_prefix p s = None ->
  PyStr.strip_prefix p (s ++ tail) = Some r ->
  exists t, tail = t ++ r.
Proof.
  revert s; induction p as [|a p IH]; intros s; [discriminate|].
  destruct s as [|b s]; cbn [app].
  - intros _ H. apply strip_prefix_inv in H. now exists (a :: p).
  - cbn [PyStr.strip_prefix]. destruct (Ascii.eqb a b); [apply IH|discriminate].
Qed.

Lemma match_here_app_no_lf (s tail : str) :
  no_lf tail = true -> match_here (s ++ tail) = match_here s.
Proof.
  intros H. unfold match_here.
  destruct (PyStr.strip_prefix MARK s) as [r|] eqn:P.
  - apply strip_prefix_inv in P. subst s.
    rewrite <- app_assoc, strip_prefix_app, (split_line_app_no_lf r tail H).
    now destruct (split_line r) as [[l x]|].
  - destruct (PyStr.strip_prefix MARK (s ++ tail)) as [r|] eqn:P'; [|reflexivity].
    destruct (strip_prefix_short _ _ _ _ P P') as [t Et].
    rewrite Et, no_lf_app in H. apply andb_prop in H as [_ H].
    now rewrite (proj2 (split_line_none r) H).
Qed.

Lemma match_here_no_lf (s : str) : no_lf s = true -> match_here s = None.
Proof.
  intros H. destruct (match_here s) as [n|] eqn:M; [|reflexivity].
  destruct (match_here_inv _ _ M) as [r [E _]].
  rewrite E, !no_lf_app in H. cbn in H.
  rewrite !andb_false_r in H. discriminate.
Qed.

Lemma scan_no_lf (s : str) (skip q : nat) : no_lf s = true -> scan skip q s = [].
Proof.
  revert skip q; induction s as [|c t IH]; intros skip q H; [reflexivity|].
  cbn [scan]. destruct skip as [|k].
  - rewrite (match_here_no_lf _ H). apply IH.
    cbn in H. now apply andb_prop in H as [_ H].
  - apply IH. cbn in H. now apply andb_prop in H as [_ H].
Qed.

Lemma scan_app_no_lf (pre tail : str) (skip q : nat) :
  no_lf tail = true -> scan skip q (pre ++ tail) = scan skip q pre.
Proof.
  intros H. revert skip q; induction pre as [|c t IH]; intros skip q.
  - cbn [app]. rewrite (scan_no_lf tail skip q H). now destruct skip.
  - change ((c :: t) ++ tail) with (c :: t ++ tail). cbn [scan].
    destruct skip as [|k]; [|apply IH].
    change (c :: t ++ tail) with ((c :: t) ++ tail).
    rewrite (match_here_app_no_lf (c :: t) tail H).
    destruct (match_here (c :: t)); now rewrite IH.
Qed.

Lemma entries_of_names (content : str) (markers todo : list Match) (i : nat) :
  map fst (entries_of content markers i todo) = map m_group1 todo.
Proof.
  revert i; induction todo as [|m todo IH]; intros i; [reflexivity|].
  cbn [entries_of map fst]. now rewrite IH.
Qed.

End MarkerFacts.

(** ** The loop of [unpack_files] *)

Section UnpackLoop.

Import Re Archive.

Lemma unpack_loop_entries (content : str) (markers : list Match)
  (output_dir : str) (todo : list Match) (i : nat) (fs : Fs.FS)
  (stdout : list str) (file_count : nat) :
  Unpack.unpack_loop content markers output_dir i todo fs stdout file_count
  = write_entries output_dir (entries_of content markers i todo)
                  fs stdout file_count.
Proof.
  revert i fs stdout file_count; induction todo as [|m todo IH];
    intros i fs stdout file_count; [reflexivity|].
  cbn [Unpack.unpack_loop entries_of write_entries fst snd].
  destruct (Fs.open_w fs (OsPath.join output_dir (m_group1 m))) as [[fs1 h]|e];
    [apply IH|reflexivity].
Qed.

End UnpackLoop.

(** ** The order of strings and [sorted] *)

Section SortFacts.

Lemma ascii_compare_refl (a : ascii) : Ascii.compare a a = Eq.
Proof. unfold Ascii.compare. apply BinNat.N.compare_refl. Qed.

Lemma ascii_compare_lt_trans (a b c : ascii) :
  Ascii.compare a b = Lt -> Ascii.compare b c = Lt -> Ascii.compare a c = Lt.
Proof.
  unfold Ascii.compare. rewrite !BinNat.N.compare_lt_iff.
  apply BinNat.N.lt_trans.
Qed.

Lemma compare_refl (a : str) : PyStr.compare a a = Eq.
Proof.
  induction a as [|x a IH]; [reflexivity|].
  cbn [PyStr.compare]. now rewrite ascii_compare_refl.
Qed.



Lemma lt_trans (a b c : str) : PyStr.lt a b -> PyStr.lt b c -> PyStr.lt a c.
Proof.
  unfold PyStr.lt. revert b c; induction a as [|x a IH]; intros [|y b] [|z c];
    cbn [PyStr.compare]; try discriminate; try reflexivity.
  destruct (Ascii.compare x y) eqn:Cxy; try discriminate;
    destruct (Ascii.compare y z) eqn:Cyz; try discriminate; intros Hab Hbc.
  - apply Ascii.compare_eq_iff in Cxy, Cyz. subst y z.
    rewrite ascii_compare_refl. now apply (IH b c).
  - apply Ascii.compare_eq_iff in Cxy. subst y. now rewrite Cyz.
  - apply Ascii.compare_eq_iff in Cyz. subst z. now rewrite Cxy.
  - now rewrite (ascii_compare_lt_trans x y z Cxy Cyz).
Qed.


Lemma ltb_lt (a b : str) : PyStr.ltb a b = true <-> PyStr.lt a b.
Proof.
  unfold PyStr.ltb, PyStr.lt. destruct (PyStr.compare a b); split; congruence.
Qed.


Lemma compare_app (p a b : str) :
  PyStr.compare (p ++ a) (p ++ b) = PyStr.compare a b.
Proof.
  induction p as [|x p IH]; [reflexivity|].
  cbn [app PyStr.compare]. now rewrite ascii_compare_refl.
Qed.

Lemma in_insert (x z : str) (l : list str) :
  In z (PyStr.insert x l) <-> z = x \/ In z l.
Proof.
  induction l as [|y l IH]; cbn [PyStr.insert In].
  - intuition.
  - destruct (PyStr.ltb y x); cbn [In]; [rewrite IH|]; intuition.
Qed.

Lemma in_sorted (z : str) (l : list str) : In z (PyStr.sorted l) <-> In z l.
Proof.
  induction l as [|x l IH]; [reflexivity|].
  cbn [PyStr.sorted fold_right]. fold (PyStr.sorted l).
  rewrite in_insert, IH. cbn [In]. intuition.
Qed.

Lemma insert_perm (x : str) (l : list str) : Permutation (x :: l) (PyStr.insert x l).
Proof.
  induction l as [|y l IH]; cbn [PyStr.insert]; [reflexivity|].
  destruct (PyStr.ltb y x); [|reflexivity].
  rewrite perm_swap. now apply perm_skip.
Qed.

Lemma sorted_perm (l : list str) : Permutation l (PyStr.sorted l).
Proof.
  induction l as [|x l IH]; [reflexivity|].
  cbn [PyStr.sorted fold_right]. fold (PyStr.sorted l).
  rewrite <- insert_perm. now apply perm_skip.
Qed.

Lemma length_sorted (l : list str) : length (PyStr.sorted l) = length l.
Proof. symmetry. apply Permutation_length, sorted_perm. Qed.





Lemma insert_map_app (p x : str) (l : list str) :
  PyStr.insert (p ++ x) (map (app p) l) = map (app p) (PyStr.insert x l).
Proof.
  induction l as [|y l IH]; [reflexivity|].
  cbn [map PyStr.insert]. unfold PyStr.ltb. rewrite compare_app.
  destruct (PyStr.compare y x); cbn [map]; try reflexivity.
  now rewrite IH.
Qed.

(** Sorting paths with a common directory part sorts their names. *)
Lemma sorted_map_app (p : str) (l : list str) :
  PyStr.sorted (map (app p) l) = map (app p) (PyStr.sorted l).
Proof.
  induction l as [|x l IH]; [reflexivity|].
  cbn [map PyStr.sorted fold_right].
  fold (PyStr.sorted l). fold (PyStr.sorted (map (app p) l)).
  now rewrite IH, insert_map_app.
Qed.

End SortFacts.

(** ** Directories *)

Section DirFacts.

Import Fs.



Lemma child_of_spec (d l : loc) (n : str) :
  child_of d l = Some n <-> l = d ++ [n].
Proof.
  unfold child_of. split.
  - destruct (Nat.eq_dec (length l) (S (length d))) as [E|E]; [|discriminate].
    destruct (loc_eq_dec (firstn (length d) l) d) as [F|F]; [|discriminate].
    intros [= <-].
    rewrite <- (firstn_skipn (length d) l) at 1. rewrite F. f_equal.
    assert (Hs : length (skipn (length d) l) = 1) by (rewrite length_skipn; lia).
    destruct (skipn (length d) l) as [|x [|y t]] eqn:S; try discriminate.
    rewrite <- (firstn_skipn (length d) l), S. now rewrite last_last.
  - intros ->.
    destruct (Nat.eq_dec (length (d ++ [n])) (S (length d))) as [E|E].
    + rewrite firstn_app, Nat.sub_diag, firstn_all. cbn [firstn].
      rewrite app_nil_r. destruct (loc_eq_dec d d); [|contradiction].
      now rewrite last_last.
    + rewrite length_app in E. cbn in E. lia.
Qed.

Lemma in_listdir (fs : FS) (d : loc) (n : str) :
  In n (listdir fs d) <-> In (d ++ [n]) (map fst (nodes fs)).
Proof.
  unfold listdir. rewrite in_flat_map, in_map_iff. split.
  - intros [[k m] [Hin Hc]]. cbn [fst] in Hc.
    destruct (child_of d k) as [n'|] eqn:C; [|destruct Hc].
    destruct Hc as [<-|[]]. apply child_of_spec in C. subst k.
    now exists (d ++ [n'], m).
  - intros [[k m] [E Hin]]. cbn [fst] in E. subst k.
    exists (d ++ [n], m). split; [exact Hin|]. cbn [fst].
    rewrite (proj2 (child_of_spec d (d ++ [n]) n) eq_refl). now left.
Qed.


Lemma listdir_plain (fs : FS) (d : loc) (n : str) :
  wf fs = true -> In n (listdir fs d) -> plain n = true.
Proof.
  unfold wf. intros H Hin. apply andb_prop in H as [_ H].
  rewrite forallb_forall in H. apply in_listdir in Hin.
  specialize (H _ Hin). rewrite forallb_forall in H.
  apply H. apply in_or_app. right. now left.
Qed.




Lemma in_matched (fs : FS) (s : loc) (n : str) :
  In n (matched fs s) <->
  In n (listdir fs s) /\ Glob.ishidden n = false /\ supported n = true.
Proof.
  unfold matched, supported. rewrite !in_app_iff, !filter_In.
  unfold Glob.selected. split.
  - intros [[H S]|[[H S]|[[H S]|[H S]]]]; apply andb_prop in S as [Sh Se];
      apply negb_true_iff in Sh; rewrite Se, ?orb_true_r; auto.
  - intros [H [Sh S]]. rewrite Sh. cbn [negb andb].
    destruct (PyStr.endswith n (lit ".swift")); [now left|].
    destruct (PyStr.endswith n (lit ".plist")); [right; now left|].
    destruct (PyStr.endswith n (lit ".json")); [right; right; now left|].
    cbn [orb] in S. right; right; right. now split.
Qed.

End DirFacts.

(** ** What [pack_files] writes *)

Section PackFacts.

Import Fs Archive.

Lemma join_dir_app (a n : str) :
  a <> [] -> no_slash n = true -> OsPath.join a n = join_dir a ++ n.
Proof.
  intros Ha Hn. destruct (join_plain a n Ha Hn) as [a' [-> [_ ->]]].
  now rewrite <- app_assoc.
Qed.

Lemma basename_join_dir (a n : str) :
  a <> [] -> no_slash n = true -> OsPath.basename (join_dir a ++ n) = n.
Proof.
  intros Ha Hn. destruct (join_plain a n Ha Hn) as [a' [_ [_ ->]]].
  rewrite <- app_assoc. now apply basename_join.
Qed.

Lemma plain_no_slash (n : str) : plain n = true -> no_slash n = true.
Proof.
  unfold plain. intros P. apply andb_prop in P as [P _].
  now apply andb_prop in P as [P _].
Qed.

Lemma pack_loop_names (fs1 : FS) (gj : str) (txt : str -> str)
  (names : list str) (n i : nat) (w : str) :
  (forall name, In name names ->
     OsPath.basename (gj ++ name) = name
     /\ read_text fs1 (gj ++ name) = Ok (txt name)) ->
  n = i + length names ->
  Pack.pack_loop fs1 n i (map (app gj) names) w
  = (w ++ blocks (with_sep (map (fun name => (name, txt name)) names)), None).
Proof.
  revert i w; induction names as [|name rest IH]; intros i w H Hn.
  - cbn. now rewrite app_nil_r.
  - destruct (H name (or_introl eq_refl)) as [Hb Hr].
    cbn [map Pack.pack_loop]. rewrite Hb, Hr.
    change (lit "// FILE: ") with Re.MARK.
    destruct rest as [|name' rest'].
    + cbn [length] in Hn.
      replace (i <? n - 1) with false by (symmetry; apply Nat.ltb_ge; lia).
      cbn [map Pack.pack_loop with_sep]. f_equal.
      rewrite blocks_cons. cbn [blocks flat_map].
      rewrite app_nil_r, <- !app_assoc. reflexivity.
    + cbn [length] in Hn.
      replace (i <? n - 1) with true by (symmetry; apply Nat.ltb_lt; lia).
      rewrite (IH (S i)); [|intros x Hx; apply H; now right|cbn [length]; lia].
      f_equal. cbn [map with_sep fst snd].
      rewrite blocks_cons, <- !app_assoc. reflexivity.
Qed.

Lemma open_w_spec (fs : FS) (p : str) (o : loc) :
  resolve fs p = Ok o -> node_at fs o <> Some Dir ->
  open_w fs p = Ok (set_node fs o (File []), o).
Proof.
  intros R N. unfold open_w. rewrite R.
  destruct (node_at fs o) as [[c|]|]; try reflexivity. contradiction.
Qed.

Lemma not_root (fs : FS) (o : loc) : node_at fs o <> Some Dir -> o <> [].
Proof. intros N ->. now apply N. Qed.

(** [pack_files] on a directory with matching files, when the output
    file can be opened and every matching name is a file. *)
Lemma pack_spec (fs : FS) (src out : str) (s o : loc) :
  wf fs = true -> Glob.has_magic src = false ->
  resolve fs src = Ok s -> node_at fs s = Some Dir ->
  matched fs s <> [] ->
  resolve fs out = Ok o -> node_at fs o <> Some Dir ->
  (forall n, In n (matched fs s) ->
     o = s ++ [n] \/ exists c, node_at fs (s ++ [n]) = Some (File c)) ->
  Pack.pack_files fs src out
  = mkResult
      (set_node (set_node fs o (File [])) o (File (archive_of fs o s)))
      [lit "Successfully packed " ++ str_of_nat (length (matched fs s))
       ++ lit " files into " ++ out]
      Returned.
Proof.
  intros W Hm R N M Ro No Hf. unfold Pack.pack_files.
  rewrite (isdir_resolved fs src s R N). cbn [negb].
  destruct (pack_files_scans fs src s Hm R N) as [Rg [G1 [G2 [G3 G4]]]].
  rewrite G1, G2, G3, G4. rewrite <- !map_app. fold (matched fs s).
  set (gd := glob_dir src) in *.
  assert (Hg : gd <> []) by (intros E; rewrite E in Rg; discriminate).
  assert (Hp : forall n, In n (matched fs s) -> plain n = true).
  { intros n Hn. apply in_matched in Hn as [Hn _].
    now apply (listdir_plain fs s). }
  assert (Ej : map (OsPath.join gd) (matched fs s)
               = map (app (join_dir gd)) (matched fs s)).
  { apply map_ext_in. intros n Hn.
    apply join_dir_app; [exact Hg|]. now apply plain_no_slash, Hp. }
  rewrite Ej, sorted_map_app.
  destruct (map (app (join_dir gd)) (PyStr.sorted (matched fs s)))
    as [|f fl] eqn:Ea.
  { apply (f_equal (@length str)) in Ea.
    rewrite length_map, length_sorted in Ea.
    destruct (matched fs s); [contradiction|discriminate]. }
  rewrite <- Ea. rewrite (open_w_spec fs out o Ro No).
  set (fs1 := set_node fs o (File [])).
  assert (K : keeps_dirs fs fs1) by (now apply keeps_dirs_set).
  rewrite (pack_loop_names fs1 (join_dir gd) (packed_text fs o s)
             (PyStr.sorted (matched fs s))).
  - unfold close_w, archive_of. cbn [app].
    now rewrite !length_map, length_sorted.
  - intros n Hn. apply (proj1 (in_sorted n _)) in Hn.
    pose proof (Hp n Hn) as Pn.
    split; [apply basename_join_dir; [exact Hg|now apply plain_no_slash]|].
    rewrite <- join_dir_app; [|exact Hg|now apply plain_no_slash].
    unfold read_text.
    rewrite (resolve_join fs1 gd n s (resolve_keeps fs fs1 gd s K Rg)
               (proj2 K s N) Pn).
    unfold packed_text.
    destruct (loc_eq_dec o (s ++ [n])) as [E|E].
    + rewrite <- E. unfold fs1.
      rewrite node_at_set_same by (now apply (not_root fs)). reflexivity.
    + unfold fs1. rewrite node_at_set_other by exact E.
      destruct (Hf n Hn) as [Eo|[c Hc]]; [contradiction|]. now rewrite Hc.
  - rewrite length_map. reflexivity.
Qed.

End PackFacts.

(** ** The order of enumeration *)

Section EnumFacts.

Import Fs Archive.












End EnumFacts.

(** ** What [unpack_files] writes *)

Section WriteFacts.

Import Fs Archive.

Lemma open_w_inv (fs fs1 : FS) (p : str) (h : loc) :
  open_w fs p = Ok (fs1, h) ->
  resolve fs p = Ok h /\ node_at fs h <> Some Dir
  /\ fs1 = set_node fs h (File []).
Proof.
  unfold open_w. destruct (resolve fs p) as [l|]; [|discriminate].
  destruct (node_at fs l) as [[c|]|] eqn:N; try discriminate;
    intros [= <- <-]; repeat split; congruence.
Qed.

Lemma write_node (fs : FS) (h l : loc) (data : str) :
  h <> [] ->
  node_at (close_w (set_node fs h (File [])) h data) l
  = if loc_eq_dec h l then Some (File data) else node_at fs l.
Proof.
  intros Hh. unfold close_w. destruct (loc_eq_dec h l) as [<-|D].
  - now apply node_at_set_same.
  - now rewrite !node_at_set_other.
Qed.

Lemma write_keeps (fs : FS) (h : loc) (data : str) :
  node_at fs h <> Some Dir ->
  keeps_dirs fs (close_w (set_node fs h (File [])) h data)
  /\ (forall l, is_file fs l ->
                is_file (close_w (set_node fs h (File [])) h data) l).
Proof.
  intros N. pose proof (not_root fs h N) as Hh. split.
  - split; [reflexivity|]. intros l Hl. rewrite (write_node fs h l data Hh).
    destruct (loc_eq_dec h l); [congruence|exact Hl].
  - intros l [c Hl]. unfold is_file. rewrite (write_node fs h l data Hh).
    destruct (loc_eq_dec h l); [now exists data|now exists c].
Qed.

(** A run of the loop that ends without an error has printed a line for
    each entry, and every path it wrote to names a file afterwards. *)
Lemma write_entries_ok (output_dir : str) (es : list (str * str)) (fs fs' : FS)
  (stdout stdout' : list str) (n n' : nat) :
  write_entries output_dir es fs stdout n = (fs', stdout', n', None) ->
  keeps_dirs fs fs'
  /\ (forall l, is_file fs l -> is_file fs' l)
  /\ stdout' = stdout ++ map (created output_dir) es
  /\ n' = n + length es
  /\ (forall e, In e es ->
        exists l, resolve fs' (OsPath.join output_dir (fst e)) = Ok l
                  /\ is_file fs' l).
Proof.
  revert fs stdout n; induction es as [|e es IH]; intros fs stdout n H.
  - cbn in H. injection H as <- <- <-.
    split; [apply keeps_dirs_refl|]. split; [auto|].
    split; [now rewrite app_nil_r|]. split; [cbn; lia|intros e []].
  - cbn [write_entries] in H.
    destruct (open_w fs (OsPath.join output_dir (fst e))) as [[fs1 h]|err] eqn:O;
      [|discriminate].
    destruct (open_w_inv _ _ _ _ O) as [R [N ->]].
    destruct (write_keeps fs h (snd e) N) as [K F].
    destruct (IH _ _ _ H) as [K' [F' [Es [En Hl]]]].
    split; [exact (keeps_dirs_trans _ _ _ K K')|].
    split; [auto|]. split; [|split].
    + rewrite Es, <- app_assoc. reflexivity.
    + rewrite En. cbn [length]. lia.
    + intros x [<-|Hx]; [|now apply Hl].
      exists h. split.
      * apply (resolve_keeps fs fs'); [exact (keeps_dirs_trans _ _ _ K K')|exact R].
      * apply F'. exists (snd e).
        rewrite (write_node fs h h (snd e) (not_root fs h N)).
        now destruct (loc_eq_dec h h).
Qed.



End WriteFacts.

(** ** The archive [pack_files] writes, read by [unpack_files] *)

Section RoundTripFacts.

Import Fs Archive Re.










Lemma quiet_app (a b rest : str) :
  quiet (a ++ b) rest = quiet a (b ++ rest) && quiet b rest.
Proof.
  induction a as [|c a IH]; [reflexivity|].
  cbn [app quiet]. rewrite <- app_assoc.
  destruct (match_here (c :: a ++ b ++ rest)); [reflexivity|exact IH].
Qed.








End RoundTripFacts.

(** ** Packing, then unpacking *)

Section Pipeline.

Import Fs Archive Re.





End Pipeline.

Section ListingFacts.

Import Fs.



End ListingFacts.

(** * The claims *)

(** C8. When the source directory of [pack_files] is missing or is not
    a directory, and when the input file of [unpack_files] is missing,
    the run prints the error and returns with the file system as it
    was: no output file, no output directory, no entry file. *)
Theorem C8_input_not_found (fs : Fs.FS) (source_dir output_file input_file output_dir : str) :
  (Fs.isdir fs source_dir = false ->
   Pack.pack_files fs source_dir output_file
   = mkResult fs [lit "Error: Source directory not found at " ++ source_dir]
              Returned)
  /\ (Fs.exists_ fs input_file = false ->
      Unpack.unpack_files fs input_file output_dir
      = mkResult fs [lit "Error: Input file not found at " ++ input_file]
                 Returned).
Proof.
  unfold Pack.pack_files, Unpack.unpack_files.
  split; intros H; now rewrite H.
Qed.

Lemma C8_witness :
  Fs.isdir fs_demo (lit "docs/notes.txt") = false
  /\ Fs.exists_ fs_demo (lit "archive.txt") = false
  /\ Pack.pack_files fs_demo (lit "docs/notes.txt") (lit "out.txt")
     = mkResult fs_demo
         [lit "Error: Source directory not found at " ++ lit "docs/notes.txt"]
         Returned
  /\ Unpack.unpack_files fs_demo (lit "archive.txt") (lit "dst")
     = mkResult fs_demo
         [lit "Error: Input file not found at " ++ lit "archive.txt"]
         Returned.
Proof.
  split; [reflexivity|]. split; [reflexivity|]. split.
  - apply (proj1 (C8_input_not_found fs_demo (lit "docs/notes.txt")
                    (lit "out.txt") (lit "archive.txt") (lit "dst"))).
    reflexivity.
  - apply (proj2 (C8_input_not_found fs_demo (lit "docs/notes.txt")
                    (lit "out.txt") (lit "archive.txt") (lit "dst"))).
    reflexivity.
Defined.



(** C10. When the input file can be read and holds no marker,
    [unpack_files] has already created the output directory, with the
    directories on the way to it, when it prints that no markers were
    found: it returns with a file system in which the output directory
    exists, that differs from the one it started in when the directory
    was missing, and that holds the same files as before. *)
Theorem C10_no_markers_makedirs (fs fs1 : Fs.FS) (input_file output_dir content : str) :
  Fs.read_text fs input_file = Fs.Ok content ->
  Re.finditer content = [] ->
  Fs.makedirs fs output_dir = (fs1, None) ->
  Unpack.unpack_files fs input_file output_dir
  = mkResult fs1 [lit "No file markers found in the input file."] Returned
  /\ Fs.isdir fs1 output_dir = true
  /\ (Fs.isdir fs output_dir = false -> fs1 <> fs)
  /\ (forall l c, Fs.node_at fs1 l = Some (Fs.File c)
                  <-> Fs.node_at fs l = Some (Fs.File c)).
Proof.
  intros Hr Hf Hm.
  destruct (makedirs_spec fs fs1 output_dir None Hm) as [E [A D]].
  split; [|split; [|split]].
  - unfold Unpack.unpack_files.
    rewrite (read_text_exists fs input_file content Hr). cbn [negb].
    rewrite Hm, (read_text_extends fs fs1 input_file content E Hr), Hf.
    reflexivity.
  - now apply D.
  - intros Hn Heq. rewrite Heq in D. rewrite D in Hn; [discriminate|reflexivity].
  - intros l c. split.
    + intros H. destruct (A l) as [Hl|[_ Hl]]; congruence.
    + apply (proj2 E).
Qed.

Lemma C10_witness :
  Fs.read_text fs_demo (lit "docs/notes.txt") = Fs.Ok (lit "hello")
  /\ Re.finditer (lit "hello") = []
  /\ Fs.makedirs fs_demo (lit "out/files")
     = (Fs.set_node (Fs.set_node fs_demo [lit "home"; lit "out"] Fs.Dir)
                    [lit "home"; lit "out"; lit "files"] Fs.Dir, None)
  /\ Unpack.unpack_files fs_demo (lit "docs/notes.txt") (lit "out/files")
     = mkResult
         (Fs.set_node (Fs.set_node fs_demo [lit "home"; lit "out"] Fs.Dir)
                      [lit "home"; lit "out"; lit "files"] Fs.Dir)
         [lit "No file markers found in the input file."] Returned.
Proof.
  split; [reflexivity|]. split; [reflexivity|]. split; [reflexivity|].
  apply (C10_no_markers_makedirs fs_demo _ (lit "docs/notes.txt")
           (lit "out/files") (lit "hello")); reflexivity.
Defined.

(** C3 (as the code has it). A marker is recognised wherever the text
    [// FILE: ] stands, at the start of a line or not.  Here it follows
    other text on its line, and it is a match all the same. *)
Lemma C3_counterexample :
  Re.finditer (lit "let s = // FILE: a.swift" ++ [LF] ++ lit "x")
  = [Re.mkMatch 8 25 (lit "a.swift")]
  /\ line_start (lit "let s = // FILE: a.swift" ++ [LF] ++ lit "x") 8 = false.
Proof. split; reflexivity. Qed.

(** C3, amended. The markers [unpack_files] finds are occurrences of
    the prefix, a name that is the rest of the line, and the line feed,
    at any position of a line; every such occurrence is one of them or
    lies inside one of them; and every occurrence that starts a line is
    one of them. *)
Theorem C3_marker_recognition (content : str) :
  (forall m, In m (Re.finditer content) ->
     occurs content (Re.m_start m) (Re.m_group1 m)
     /\ Re.m_end m = Re.m_start m + Re.match_len (Re.m_group1 m))
  /\ (forall p n, occurs content p n ->
        exists m, In m (Re.finditer content)
                  /\ Re.m_start m <= p < Re.m_end m)
  /\ (forall p n, occurs content p n -> line_start content p = true ->
        In (Re.mkMatch p (p + Re.match_len n) n) (Re.finditer content)).
Proof.
  split; [|split].
  - apply finditer_sound.
  - intros p n O. apply occurs_match_here in O.
    destruct (scan_covers content 0 0 p n (Nat.le_0_l p) O) as [m [Hi Hm]].
    exists m. split; [exact Hi|exact Hm].
  - apply finditer_line_start.
Qed.

Lemma C3_witness :
  occurs (lit "a" ++ [LF] ++ lit "// FILE: b.json" ++ [LF]) 2 (lit "b.json")
  /\ line_start (lit "a" ++ [LF] ++ lit "// FILE: b.json" ++ [LF]) 2 = true
  /\ In (Re.mkMatch 2 (2 + Re.match_len (lit "b.json")) (lit "b.json"))
        (Re.finditer (lit "a" ++ [LF] ++ lit "// FILE: b.json" ++ [LF])).
Proof.
  assert (O : occurs (lit "a" ++ [LF] ++ lit "// FILE: b.json" ++ [LF]) 2
                     (lit "b.json")).
  { exists (lit "a" ++ [LF]), []. repeat split. }
  split; [exact O|]. split; [reflexivity|].
  exact (proj2 (proj2 (C3_marker_recognition _)) 2 (lit "b.json") O eq_refl).
Defined.

(** C4. The text divides into what precedes the first marker and, for
    each marker found, the marker line and the span that runs to the
    start of the next marker, or to the end of the text.  The loop of
    [unpack_files] writes, for each marker and in this order, the name
    of the marker and its span without the line feeds at its two ends;
    nothing else of the span is removed. *)
Theorem C4_content_span (content : str) :
  exists pre raw,
    content = pre ++ Archive.blocks raw
    /\ Re.finditer content = Archive.matches_of (length pre) raw
    /\ (forall output_dir fs stdout file_count,
          Unpack.unpack_loop content (Re.finditer content) output_dir 0
            (Re.finditer content) fs stdout file_count
          = Archive.write_entries output_dir
              (map (fun e => (fst e, PyStr.strip_lf (snd e))) raw)
              fs stdout file_count)
    /\ (forall span : str,
          exists a b,
            span = repeat LF a ++ PyStr.strip_lf span ++ repeat LF b
            /\ (forall t, PyStr.strip_lf span <> LF :: t)
            /\ (forall t, PyStr.strip_lf span <> t ++ [LF])).
Proof.
  destruct (decompose content) as [pre [raw [E [Hq Hp]]]].
  exists pre, raw. split; [exact E|]. split; [|split].
  - unfold Re.finditer. rewrite E at 1. now apply scan_parsed.
  - intros output_dir fs stdout file_count.
    rewrite unpack_loop_entries. f_equal.
    fold (Archive.entries content). rewrite E. now apply entries_blocks.
  - apply strip_lf_spec.
Qed.

(** C6 (as the code has it). A marker on a last line without a line
    feed is not found.  Here the archive names two files; the second
    marker ends the text, and [unpack_files] writes one file, whose
    content includes the text of that marker. *)
Lemma C6_counterexample :
  let archive :=
    lit "// FILE: a.swift" ++ [LF] ++ lit "x" ++ [LF] ++ lit "// FILE: b.swift" in
  let fs := Fs.mkFS [] [([lit "in.txt"], Fs.File archive)] in
  let r := Unpack.unpack_files fs (lit "in.txt") (lit "out") in
  Re.finditer (lit "// FILE: b.swift") = []
  /\ r_outcome r = Returned
  /\ Fs.node_at (r_fs r) [lit "out"; lit "b.swift"] = None
  /\ Fs.node_at (r_fs r) [lit "out"; lit "a.swift"]
     = Some (Fs.File (lit "x" ++ [LF] ++ lit "// FILE: b.swift")).
Proof. cbv zeta. repeat split; vm_compute; reflexivity. Qed.

(** C6, amended. When the text ends with a marker that no line feed
    follows, that marker is not found: the matches are those of the
    text before it, and so are the names of the entries written. *)
Theorem C6_unterminated_marker (pre name : str) :
  Archive.no_lf name = true ->
  Re.finditer (pre ++ Re.MARK ++ name) = Re.finditer pre
  /\ map fst (Archive.entries (pre ++ Re.MARK ++ name))
     = map fst (Archive.entries pre).
Proof.
  intros H.
  assert (Hl : Archive.no_lf (Re.MARK ++ name) = true)
    by (rewrite no_lf_app, H; reflexivity).
  assert (E : Re.finditer (pre ++ Re.MARK ++ name) = Re.finditer pre)
    by (apply scan_app_no_lf, Hl).
  split; [exact E|].
  unfold Archive.entries. now rewrite !entries_of_names, E.
Qed.

Lemma C6_witness :
  Archive.no_lf (lit "b.swift") = true
  /\ Re.finditer ((lit "// FILE: a.swift" ++ [LF] ++ lit "x" ++ [LF])
                  ++ Re.MARK ++ lit "b.swift")
     = [Re.mkMatch 0 17 (lit "a.swift")].
Proof.
  split; [reflexivity|].
  rewrite (proj1 (C6_unterminated_marker
                    (lit "// FILE: a.swift" ++ [LF] ++ lit "x" ++ [LF])
                    (lit "b.swift") eq_refl)).
  reflexivity.
Defined.



(** C9. [unpack_files] writes each entry to the path that joins the
    output directory and the name of the marker as it stands: after a
    run that returns, that path names a file, and the line printed for
    the entry shows it.  The name is not checked, so a name with a
    parent directory reference, or an absolute one, puts the file
    outside the output directory: in the run below the two files are
    written beside the output directory, which stays empty. *)
Theorem C9_path_injection :
  (forall (fs : Fs.FS) (input_file output_dir content : str) (m : Re.Match),
     Fs.read_text fs input_file = Fs.Ok content ->
     r_outcome (Unpack.unpack_files fs input_file output_dir) = Returned ->
     In m (Re.finditer content) ->
     let r := Unpack.unpack_files fs input_file output_dir in
     In (lit "Created " ++ OsPath.join output_dir (Re.m_group1 m)) (r_stdout r)
     /\ exists l data,
          Fs.resolve (r_fs r) (OsPath.join output_dir (Re.m_group1 m)) = Fs.Ok l
          /\ Fs.node_at (r_fs r) l = Some (Fs.File data))
  /\ (let archive :=
        lit "// FILE: ../up.swift" ++ [LF] ++ lit "x" ++ [LF]
        ++ lit "// FILE: /home/abs.swift" ++ [LF] ++ lit "y" in
      let fs :=
        Fs.mkFS [lit "home"]
          [([lit "home"], Fs.Dir); ([lit "home"; lit "in.txt"], Fs.File archive)] in
      let r := Unpack.unpack_files fs (lit "in.txt") (lit "out") in
      r_outcome r = Returned
      /\ Fs.resolve (r_fs r) (lit "out") = Fs.Ok [lit "home"; lit "out"]
      /\ Fs.listdir (r_fs r) [lit "home"; lit "out"] = []
      /\ Fs.node_at (r_fs r) [lit "home"; lit "up.swift"]
         = Some (Fs.File (lit "x"))
      /\ Fs.node_at (r_fs r) [lit "home"; lit "abs.swift"]
         = Some (Fs.File (lit "y"))).
Proof.
  split; [|repeat split].
  intros fs input_file output_dir content m Hr Ho Hm r. revert Ho.
  unfold r, Unpack.unpack_files.
  rewrite (read_text_exists fs input_file content Hr). cbn [negb].
  destruct (Fs.makedirs fs output_dir) as [fs1 [e|]] eqn:Mk;
    [discriminate|].
  destruct (makedirs_spec fs fs1 output_dir None Mk) as [E _].
  rewrite (read_text_extends fs fs1 input_file content E Hr).
  destruct (Re.finditer content) as [|m0 ms] eqn:Ef; [destruct Hm|].
  rewrite <- Ef in *. rewrite unpack_loop_entries.
  destruct (Archive.write_entries output_dir
              (Archive.entries_of content (Re.finditer content) 0
                 (Re.finditer content)) fs1 [] 0)
    as [[[fs2 so] cnt] [e|]] eqn:Ew; [discriminate|].
  intros _. cbn [r_stdout r_fs].
  destruct (write_entries_ok _ _ _ _ _ _ _ _ Ew) as [_ [_ [Es [_ Hl]]]].
  assert (Hin : In (Re.m_group1 m)
                   (map fst (Archive.entries_of content (Re.finditer content) 0
                               (Re.finditer content)))).
  { rewrite entries_of_names. now apply in_map. }
  apply in_map_iff in Hin as [x [Ex Hx]].
  split.
  - apply in_or_app. left. rewrite Es. cbn [app].
    apply in_map_iff. exists x. split; [|exact Hx].
    unfold created. now rewrite Ex.
  - destruct (Hl x Hx) as [l [Rl [data Hd]]]. rewrite Ex in Rl.
    now exists l, data.
Qed.

Lemma C9_witness :
  let fs :=
    Fs.mkFS [lit "home"]
      [([lit "home"], Fs.Dir);
       ([lit "home"; lit "in.txt"],
        Fs.File (lit "// FILE: ../up.swift" ++ [LF] ++ lit "x"))] in
  let r := Unpack.unpack_files fs (lit "in.txt") (lit "out") in
  Fs.read_text fs (lit "in.txt")
  = Fs.Ok (lit "// FILE: ../up.swift" ++ [LF] ++ lit "x")
  /\ r_outcome r = Returned
  /\ In (lit "Created " ++ lit "out/../up.swift") (r_stdout r).
Proof.
  intros fs r.
  split; [reflexivity|]. split; [reflexivity|].
  exact (proj1 (proj1 C9_path_injection fs (lit "in.txt") (lit "out")
                  (lit "// FILE: ../up.swift" ++ [LF] ++ lit "x")
                  (Re.mkMatch 0 21 (lit "../up.swift"))
                  eq_refl eq_refl (or_introl eq_refl))).
Defined.







(** * Further properties of the two programs *)

(** ** What a run leaves in place *)

Section GrowFacts.

Import Fs Archive.

Lemma grows_refl (fs : FS) : grows fs fs.
Proof. split; [reflexivity|]. intros l. now left. Qed.

Lemma grows_trans (a b c : FS) : grows a b -> grows b c -> grows a c.
Proof.
  intros [C1 H1] [C2 H2]. split; [congruence|]. intros l.
  destruct (H2 l) as [E|[[Nb Dc]|[Nb [w Fc]]]].
  - destruct (H1 l) as [E1|[[Na Db]|[Na [w Fb]]]].
    + left. congruence.
    + right. left. split; [exact Na|congruence].
    + right. right. split; [exact Na|]. exists w. congruence.
  - destruct (H1 l) as [E1|[[Na Db]|[Na [w Fb]]]].
    + right. left. split; [congruence|exact Dc].
    + congruence.
    + congruence.
  - destruct (H1 l) as [E1|[[Na Db]|[Na [w' Fb]]]].
    + right. right. split; [congruence|now exists w].
    + congruence.
    + right. right. split; [exact Na|now exists w].
Qed.

Lemma grows_write (fs : FS) (h : loc) (data : str) :
  node_at fs h <> Some Dir ->
  grows fs (close_w (set_node fs h (File [])) h data).
Proof.
  intros N. split; [reflexivity|]. intros l. unfold change_ok.
  rewrite (write_node fs h l data (not_root fs h N)).
  destruct (loc_eq_dec h l) as [<-|D]; [|now left].
  right. right. split; [exact N|now exists data].
Qed.

Lemma grows_makedirs (fs fs1 : FS) (p : str) (e : option errno) :
  makedirs fs p = (fs1, e) -> grows fs fs1.
Proof.
  intros H. destruct (makedirs_spec fs fs1 p e H) as [[C _] [A _]].
  split; [exact C|]. intros l. destruct (A l) as [E|E]; [now left|right; now left].
Qed.

Lemma write_entries_grows (output_dir : str) (es : list (str * str)) (fs : FS)
  (stdout : list str) (n : nat) :
  grows fs (fst (fst (fst (write_entries output_dir es fs stdout n)))).
Proof.
  revert fs stdout n; induction es as [|e es IH]; intros fs stdout n.
  - apply grows_refl.
  - cbn [write_entries].
    destruct (open_w fs (OsPath.join output_dir (fst e))) as [[fs1 h]|err] eqn:O.
    + destruct (open_w_inv _ _ _ _ O) as [_ [N ->]].
      eapply grows_trans; [apply (grows_write fs h (snd e) N)|apply IH].
    + apply grows_refl.
Qed.

End GrowFacts.

(** X1. Whatever [pack_files] does, it changes at most one node: the
    one its output path names, which then is a file.  Every other node
    and the working directory are as before, also when the run ends in
    an error. *)
Theorem X1_pack_changes_only_output (fs : Fs.FS) (source_dir output_file : str) :
  let r := Pack.pack_files fs source_dir output_file in
  Fs.cwd (r_fs r) = Fs.cwd fs
  /\ forall l,
       Fs.node_at (r_fs r) l = Fs.node_at fs l
       \/ (Fs.resolve fs output_file = Fs.Ok l
           /\ Fs.node_at fs l <> Some Fs.Dir
           /\ exists w, Fs.node_at (r_fs r) l = Some (Fs.File w)).
Proof.
  cbv zeta. unfold Pack.pack_files.
  destruct (negb (Fs.isdir fs source_dir)); [split; [reflexivity|now left]|].
  destruct (Glob.glob fs (OsPath.join source_dir (lit "*.swift")));
    [|split; [reflexivity|now left]].
  destruct (Glob.glob fs (OsPath.join source_dir (lit "*.plist")));
    [|split; [reflexivity|now left]].
  destruct (Glob.glob fs (OsPath.join source_dir (lit "*.json")));
    [|split; [reflexivity|now left]].
  destruct (Glob.glob fs (OsPath.join source_dir (lit "*.entitlements")));
    [|split; [reflexivity|now left]].
  destruct (PyStr.sorted (l ++ l0 ++ l1 ++ l2)) as [|f fl];
    [split; [reflexivity|now left]|].
  destruct (Fs.open_w fs output_file) as [[fs1 o]|e] eqn:O;
    [|split; [reflexivity|now left]].
  destruct (open_w_inv _ _ _ _ O) as [R [N ->]].
  destruct (Pack.pack_loop (Fs.set_node fs o (Fs.File [])) (length (f :: fl)) 0
              (f :: fl) []) as [written exn].
  assert (H : Fs.cwd (Fs.close_w (Fs.set_node fs o (Fs.File [])) o written)
              = Fs.cwd fs
              /\ forall l0,
                   Fs.node_at (Fs.close_w (Fs.set_node fs o (Fs.File [])) o written) l0
                   = Fs.node_at fs l0
                   \/ (Fs.resolve fs output_file = Fs.Ok l0
                       /\ Fs.node_at fs l0 <> Some Fs.Dir
                       /\ exists w,
                            Fs.node_at (Fs.close_w (Fs.set_node fs o (Fs.File []))
                                                   o written) l0
                            = Some (Fs.File w))).
  { split; [reflexivity|]. intros l'.
    rewrite (write_node fs o l' written (not_root fs o N)).
    destruct (Fs.loc_eq_dec o l') as [<-|D]; [|now left].
    right. split; [exact R|]. split; [exact N|now exists written]. }
  destruct exn; exact H.
Qed.

(** X2. Whatever [unpack_files] does, it removes nothing: at every
    location the node is as before, or a directory was made where there
    was nothing, or a file was written where there was no directory.
    The working directory is as before.  This holds for runs that end
    in an error too. *)
Theorem X2_unpack_removes_nothing (fs : Fs.FS) (input_file output_dir : str) :
  let r := Unpack.unpack_files fs input_file output_dir in
  Fs.cwd (r_fs r) = Fs.cwd fs
  /\ forall l,
       Fs.node_at (r_fs r) l = Fs.node_at fs l
       \/ (Fs.node_at fs l = None /\ Fs.node_at (r_fs r) l = Some Fs.Dir)
       \/ (Fs.node_at fs l <> Some Fs.Dir
           /\ exists w, Fs.node_at (r_fs r) l = Some (Fs.File w)).
Proof.
  cbv zeta. change (grows fs (r_fs (Unpack.unpack_files fs input_file output_dir))).
  unfold Unpack.unpack_files.
  destruct (negb (Fs.exists_ fs input_file)); [apply grows_refl|].
  destruct (Fs.makedirs fs output_dir) as [fs1 e] eqn:Mk.
  pose proof (grows_makedirs fs fs1 output_dir e Mk) as G.
  destruct e; [exact G|].
  destruct (Fs.read_text fs1 input_file) as [content|e]; [|exact G].
  destruct (Re.finditer content) as [|m ms] eqn:Ef; [exact G|].
  rewrite unpack_loop_entries.
  pose proof (write_entries_grows output_dir
                (Archive.entries_of content (m :: ms) 0 (m :: ms)) fs1 [] 0) as W.
  destruct (Archive.write_entries output_dir
              (Archive.entries_of content (m :: ms) 0 (m :: ms)) fs1 [] 0)
    as [[[fs2 so] cnt] [e|]]; cbn [fst r_fs] in *;
    exact (grows_trans _ _ _ G W).
Qed.

(** ** Runs that end in an error *)

Section ErrorFacts.

Import Fs Archive.

Lemma walk_reaches (fs : FS) (comps : list str) (cur l : loc) (c : str) :
  walk fs cur comps = Ok l -> node_at fs l = Some (File c) ->
  node_at fs cur <> None.
Proof.
  destruct comps as [|x rest]; cbn [walk].
  - intros [= ->] H. congruence.
  - destruct (node_at fs cur); [discriminate|discriminate].
Qed.

(** [mkdirs] on a path that names a file makes nothing and fails. *)
Lemma mkdirs_file (fs : FS) (comps : list str) (cur l : loc) (c : str) :
  walk fs cur comps = Ok l -> node_at fs l = Some (File c) ->
  mkdirs fs cur comps = (fs, Some EEXIST).
Proof.
  revert cur; induction comps as [|x rest IH]; intros cur W N.
  - cbn in W. injection W as ->. cbn. now rewrite N.
  - cbn [walk mkdirs] in *.
    destruct (node_at fs cur) as [[|]|]; try discriminate.
    destruct (is_cur x); [now apply IH|].
    destruct (is_parent x); [now apply IH|].
    destruct (node_at fs (cur ++ [x])) eqn:E; [now apply IH|].
    exfalso. now apply (walk_reaches fs rest (cur ++ [x]) l c W N).
Qed.





End ErrorFacts.





(** X5. When the input file exists and the output path names a file,
    [unpack_files] ends with the error of [os.makedirs] (the path
    exists and is no directory): nothing is printed, nothing is read,
    nothing is changed. *)
Theorem X5_unpack_output_dir_is_file (fs : Fs.FS) (input_file output_dir : str)
  (l : Fs.loc) (c : str) :
  Fs.exists_ fs input_file = true ->
  Fs.resolve fs output_dir = Fs.Ok l ->
  Fs.node_at fs l = Some (Fs.File c) ->
  Unpack.unpack_files fs input_file output_dir
  = mkResult fs [] (Raised Fs.EEXIST).
Proof.
  intros He R N. unfold Unpack.unpack_files. rewrite He. cbn [negb].
  assert (Mk : Fs.makedirs fs output_dir = (fs, Some Fs.EEXIST)).
  { unfold Fs.makedirs, Fs.resolve in *.
    destruct output_dir as [|x p]; [discriminate|].
    now apply (mkdirs_file fs _ _ l c). }
  now rewrite Mk.
Qed.

Lemma X5_witness :
  Fs.exists_ fs_demo (lit "docs/notes.txt") = true
  /\ Fs.node_at fs_demo [lit "home"; lit "src"; lit "b.json"]
     = Some (Fs.File (lit "{}"))
  /\ Unpack.unpack_files fs_demo (lit "docs/notes.txt") (lit "src/b.json")
     = mkResult fs_demo [] (Raised Fs.EEXIST).
Proof.
  split; [reflexivity|]. split; [reflexivity|].
  apply (X5_unpack_output_dir_is_file fs_demo (lit "docs/notes.txt")
           (lit "src/b.json") [lit "home"; lit "src"; lit "b.json"] (lit "{}"));
    reflexivity.
Defined.

(** X6. When the input path names a directory, the check that it
    exists passes: [unpack_files] creates the output directory and only
    then fails, with the error of opening a directory for reading.  The
    output directory stays. *)
Theorem X6_unpack_input_is_directory (fs fs1 : Fs.FS)
  (input_file output_dir : str) :
  Fs.isdir fs input_file = true ->
  Fs.makedirs fs output_dir = (fs1, None) ->
  Unpack.unpack_files fs input_file output_dir
  = mkResult fs1 [] (Raised Fs.EISDIR)
  /\ Fs.isdir fs1 output_dir = true.
Proof.
  intros Hd Mk.
  destruct (makedirs_spec fs fs1 output_dir None Mk) as [E [_ D]].
  split; [|now apply D].
  unfold Fs.isdir in Hd.
  destruct (Fs.resolve fs input_file) as [l|] eqn:R; [|discriminate].
  destruct (Fs.node_at fs l) as [[c|]|] eqn:N; try discriminate.
  unfold Unpack.unpack_files, Fs.exists_. rewrite R, N. cbn [negb].
  rewrite Mk. unfold Fs.read_text.
  rewrite (resolve_keeps fs fs1 input_file l (extends_keeps fs fs1 E) R).
  now rewrite (proj2 E l Fs.Dir N).
Qed.

Lemma X6_witness :
  Fs.isdir fs_demo (lit "docs") = true
  /\ Fs.isdir fs_demo (lit "new/out") = false
  /\ r_outcome (Unpack.unpack_files fs_demo (lit "docs") (lit "new/out"))
     = Raised Fs.EISDIR
  /\ Fs.isdir (r_fs (Unpack.unpack_files fs_demo (lit "docs") (lit "new/out")))
              (lit "new/out") = true.
Proof.
  split; [reflexivity|]. split; [reflexivity|].
  destruct (X6_unpack_input_is_directory fs_demo
              (fst (Fs.makedirs fs_demo (lit "new/out")))
              (lit "docs") (lit "new/out")) as [H1 H2];
    [reflexivity|reflexivity|].
  rewrite H1. split; [reflexivity|exact H2].
Defined.

(** ** The markers and what is written for them *)

Section EntryFacts.

Import Fs Archive Re.

Lemma matches_of_bounds (raw : list (str * str)) (p : nat) :
  Forall (fun m => p <= m_start m /\ m_start m < m_end m
                   /\ m_end m <= p + length (blocks raw))
         (matches_of p raw)
  /\ StronglySorted (fun a b => m_end a <= m_start b) (matches_of p raw).
Proof.
  revert p; induction raw as [|[n sp] raw IH]; intros p.
  - split; constructor.
  - cbn [matches_of fst snd].
    destruct (IH (p + match_len n + length sp)) as [F S].
    assert (Hl : length (blocks ((n, sp) :: raw))
                 = match_len n + length sp + length (blocks raw)).
    { change (blocks ((n, sp) :: raw)) with (block (n, sp) ++ blocks raw).
      now rewrite length_app, length_block. }
    assert (Hm : 1 <= match_len n) by (unfold match_len; lia).
    split.
    + constructor; [cbn [m_start m_end]; lia|].
      apply (Forall_impl _ (P := fun m =>
               p + match_len n + length sp <= m_start m
               /\ m_start m < m_end m
               /\ m_end m <= p + match_len n + length sp + length (blocks raw)));
        [|exact F].
      intros m [H1 [H2 H3]]. lia.
    + constructor; [exact S|].
      apply (Forall_impl _ (P := fun m =>
               p + match_len n + length sp <= m_start m
               /\ m_start m < m_end m
               /\ m_end m <= p + match_len n + length sp + length (blocks raw)));
        [|exact F].
      intros m [H1 _]. cbn [m_end]. lia.
Qed.

Lemma length_entries_of (content : str) (markers todo : list Match) (i : nat) :
  length (entries_of content markers i todo) = length todo.
Proof.
  rewrite <- (length_map fst), entries_of_names. apply length_map.
Qed.

Lemma created_entries (output_dir content : str) (markers todo : list Match)
  (i : nat) :
  map (created output_dir) (entries_of content markers i todo)
  = map (fun m => lit "Created " ++ OsPath.join output_dir (m_group1 m)) todo.
Proof.
  revert i; induction todo as [|m todo IH]; intros i; [reflexivity|].
  cbn [entries_of map]. now rewrite IH.
Qed.

Lemma strip_lf_boundary_free (s : str) :
  boundary_free (PyStr.strip_lf s) = true.
Proof.
  destruct (strip_lf_spec s) as [a [b [_ [Hs He]]]].
  unfold boundary_free. apply andb_true_intro. split; apply negb_true_iff.
  - unfold PyStr.startswith.
    destruct (PyStr.strip_lf s) as [|c t]; [reflexivity|].
    cbn [PyStr.strip_prefix]. destruct (Ascii.eqb LF c) eqn:E; [|reflexivity].
    apply Ascii.eqb_eq in E. subst c. now destruct (Hs t).
  - unfold PyStr.endswith, PyStr.startswith. cbn [rev app].
    destruct (rev (PyStr.strip_lf s)) as [|c r] eqn:Er; [reflexivity|].
    cbn [PyStr.strip_prefix]. destruct (Ascii.eqb LF c) eqn:E; [|reflexivity].
    apply Ascii.eqb_eq in E. subst c. exfalso. apply (He (rev r)).
    rewrite <- (rev_involutive (PyStr.strip_lf s)), Er. reflexivity.
Qed.

Lemma entries_of_boundary_free (content : str) (markers todo : list Match)
  (i : nat) (e : str * str) :
  In e (entries_of content markers i todo) -> boundary_free (snd e) = true.
Proof.
  revert i; induction todo as [|m todo IH]; intros i; [intros []|].
  cbn [entries_of]. intros [<-|H]; [apply strip_lf_boundary_free|].
  now apply (IH (S i)).
Qed.

(** After a run of the loop without error, every path written to names
    a file whose text is that of one of the entries. *)
Lemma write_entries_pred (P : str -> Prop) (output_dir : str)
  (es : list (str * str)) (fs fs' : FS) (stdout stdout' : list str)
  (n n' : nat) :
  (forall e, In e es -> P (snd e)) ->
  write_entries output_dir es fs stdout n = (fs', stdout', n', None) ->
  (forall l c, node_at fs l = Some (File c) -> P c ->
     exists c', node_at fs' l = Some (File c') /\ P c')
  /\ (forall e, In e es ->
        exists l c, resolve fs' (OsPath.join output_dir (fst e)) = Ok l
                    /\ node_at fs' l = Some (File c) /\ P c).
Proof.
  revert fs stdout n; induction es as [|e es IH]; intros fs stdout n HP H.
  - cbn in H. injection H as <- <- <-. split; [|intros e []].
    intros l c Hl Hc. now exists c.
  - cbn [write_entries] in H.
    destruct (open_w fs (OsPath.join output_dir (fst e))) as [[fs1 h]|err] eqn:O;
      [|discriminate].
    destruct (open_w_inv _ _ _ _ O) as [R [N ->]].
    pose proof (write_node fs h) as Wn.
    destruct (write_entries_ok _ _ _ _ _ _ _ _ H) as [K _].
    destruct (IH _ _ _ (fun x Hx => HP x (or_intror Hx)) H) as [Ha Hb].
    assert (He : exists c', node_at fs' h = Some (File c') /\ P c').
    { apply (Ha h (snd e)); [|apply HP; now left].
      rewrite (Wn h (snd e) (not_root fs h N)).
      now destruct (loc_eq_dec h h). }
    split.
    + intros l c Hl Hc. destruct (loc_eq_dec h l) as [<-|D]; [exact He|].
      apply (Ha l c); [|exact Hc].
      rewrite (Wn l (snd e) (not_root fs h N)).
      now destruct (loc_eq_dec h l).
    + intros x [<-|Hx]; [|now apply Hb].
      destruct He as [c' [Hc' Pc']]. exists h, c'. split; [|now split].
      apply (resolve_keeps fs fs'); [|exact R].
      exact (keeps_dirs_trans _ _ _ (proj1 (write_keeps fs h (snd e) N)) K).
Qed.

End EntryFacts.

(** X7. The markers [unpack_files] finds come in the order of the text
    and do not overlap: each ends before the next starts, each is not
    empty, and each ends within the text.  So the span the loop slices
    for a marker, from its end to the start of the next marker or to
    the end of the text, never has its bounds out of order. *)
Theorem X7_markers_ordered (content : str) :
  StronglySorted (fun a b => Re.m_end a <= Re.m_start b) (Re.finditer content)
  /\ Forall (fun m => Re.m_start m < Re.m_end m
                      /\ Re.m_end m <= length content)
            (Re.finditer content).
Proof.
  destruct (decompose content) as [pre [raw [E [Hq Hp]]]].
  assert (Ef : Re.finditer content = Archive.matches_of (length pre) raw).
  { unfold Re.finditer. rewrite E at 1. now apply scan_parsed. }
  destruct (matches_of_bounds raw (length pre)) as [F S].
  rewrite Ef. split; [exact S|].
  apply (Forall_impl _ (P := fun m =>
           length pre <= Re.m_start m /\ Re.m_start m < Re.m_end m
           /\ Re.m_end m <= length pre + length (Archive.blocks raw)));
    [|exact F].
  intros m [_ [H2 H3]]. split; [exact H2|].
  rewrite E, length_app. exact H3.
Qed.

(** X8. Text before the first marker has no effect on what is written:
    when no marker starts inside [pre] with [rest] after it, the loop
    of [unpack_files] on [pre] followed by [rest] does what it does on
    [rest] alone. *)
Theorem X8_leading_text_ignored (pre rest output_dir : str) (fs : Fs.FS)
  (stdout : list str) (file_count : nat) :
  Archive.quiet pre rest = true ->
  Unpack.unpack_loop (pre ++ rest) (Re.finditer (pre ++ rest)) output_dir 0
    (Re.finditer (pre ++ rest)) fs stdout file_count
  = Unpack.unpack_loop rest (Re.finditer rest) output_dir 0
      (Re.finditer rest) fs stdout file_count.
Proof.
  intros Hq. rewrite !unpack_loop_entries. f_equal.
  fold (Archive.entries (pre ++ rest)). fold (Archive.entries rest).
  destruct (decompose rest) as [pre2 [raw [E [Hq2 Hp]]]].
  rewrite E in *. rewrite (entries_blocks pre2 raw Hq2 Hp).
  rewrite app_assoc. apply entries_blocks; [|exact Hp].
  now rewrite quiet_app, Hq, Hq2.
Qed.

Lemma X8_witness :
  Archive.quiet (lit "notes" ++ [LF]) (lit "// FILE: a.swift" ++ [LF] ++ lit "x")
  = true
  /\ Unpack.unpack_loop
       ((lit "notes" ++ [LF]) ++ lit "// FILE: a.swift" ++ [LF] ++ lit "x")
       (Re.finditer
          ((lit "notes" ++ [LF]) ++ lit "// FILE: a.swift" ++ [LF] ++ lit "x"))
       (lit "docs") 0
       (Re.finditer
          ((lit "notes" ++ [LF]) ++ lit "// FILE: a.swift" ++ [LF] ++ lit "x"))
       fs_demo [] 0
     = Unpack.unpack_loop (lit "// FILE: a.swift" ++ [LF] ++ lit "x")
         (Re.finditer (lit "// FILE: a.swift" ++ [LF] ++ lit "x"))
         (lit "docs") 0
         (Re.finditer (lit "// FILE: a.swift" ++ [LF] ++ lit "x"))
         fs_demo [] 0.
Proof.
  split; [reflexivity|].
  apply (X8_leading_text_ignored (lit "notes" ++ [LF])
           (lit "// FILE: a.swift" ++ [LF] ++ lit "x")).
  reflexivity.
Defined.

(** X9. No file [unpack_files] writes begins or ends with a line feed:
    after a run that returns, the path of every marker names a file
    whose text has no line feed at either end. *)
Theorem X9_written_text_boundary_free (fs : Fs.FS)
  (input_file output_dir content : str) (m : Re.Match) :
  Fs.read_text fs input_file = Fs.Ok content ->
  r_outcome (Unpack.unpack_files fs input_file output_dir) = Returned ->
  In m (Re.finditer content) ->
  let r := Unpack.unpack_files fs input_file output_dir in
  exists l data,
    Fs.resolve (r_fs r) (OsPath.join output_dir (Re.m_group1 m)) = Fs.Ok l
    /\ Fs.node_at (r_fs r) l = Some (Fs.File data)
    /\ boundary_free data = true.
Proof.
  intros Hr Ho Hm r. revert Ho. unfold r, Unpack.unpack_files.
  rewrite (read_text_exists fs input_file content Hr). cbn [negb].
  destruct (Fs.makedirs fs output_dir) as [fs1 [e|]] eqn:Mk; [discriminate|].
  destruct (makedirs_spec fs fs1 output_dir None Mk) as [E _].
  rewrite (read_text_extends fs fs1 input_file content E Hr).
  destruct (Re.finditer content) as [|m0 ms] eqn:Ef; [destruct Hm|].
  rewrite <- Ef in *. rewrite unpack_loop_entries.
  destruct (Archive.write_entries output_dir
              (Archive.entries_of content (Re.finditer content) 0
                 (Re.finditer content)) fs1 [] 0)
    as [[[fs2 so] cnt] [e|]] eqn:Ew; [discriminate|].
  intros _. cbn [r_fs].
  destruct (write_entries_pred (fun c => boundary_free c = true) _ _ _ _ _ _ _ _
              (entries_of_boundary_free content (Re.finditer content)
                 (Re.finditer content) 0) Ew) as [_ Hl].
  assert (Hin : In (Re.m_group1 m)
                   (map fst (Archive.entries_of content (Re.finditer content) 0
                               (Re.finditer content)))).
  { rewrite entries_of_names. now apply in_map. }
  apply in_map_iff in Hin as [x [Ex Hx]].
  destruct (Hl x Hx) as [l [c [Rl [Nl Pc]]]]. rewrite Ex in Rl.
  now exists l, c.
Qed.

Lemma X9_witness :
  let content := lit "// FILE: a.swift" ++ [LF] ++ [LF] ++ lit "x" ++ [LF] in
  let fs := Fs.mkFS [] [([lit "in.txt"], Fs.File content)] in
  let r := Unpack.unpack_files fs (lit "in.txt") (lit "out") in
  r_outcome r = Returned
  /\ exists l data,
       Fs.resolve (r_fs r) (OsPath.join (lit "out") (lit "a.swift")) = Fs.Ok l
       /\ Fs.node_at (r_fs r) l = Some (Fs.File data)
       /\ boundary_free data = true.
Proof.
  intros content fs r. split; [reflexivity|].
  exact (X9_written_text_boundary_free fs (lit "in.txt") (lit "out") content
           (Re.mkMatch 0 17 (lit "a.swift")) eq_refl eq_refl
           (or_introl eq_refl)).
Defined.

(** X10. A run of [unpack_files] that finds markers and returns has
    printed one line for each marker, in the order of the markers, with
    the path written to, and then the number of markers as the number
    of files: two markers with one name count as two. *)
Theorem X10_unpack_report (fs : Fs.FS) (input_file output_dir content : str) :
  Fs.read_text fs input_file = Fs.Ok content ->
  Re.finditer content <> [] ->
  r_outcome (Unpack.unpack_files fs input_file output_dir) = Returned ->
  r_stdout (Unpack.unpack_files fs input_file output_dir)
  = map (fun m => lit "Created " ++ OsPath.join output_dir (Re.m_group1 m))
        (Re.finditer content)
    ++ [[LF] ++ lit "Successfully unpacked "
        ++ str_of_nat (length (Re.finditer content))
        ++ lit " files into " ++ output_dir].
Proof.
  intros Hr Hm. unfold Unpack.unpack_files.
  rewrite (read_text_exists fs input_file content Hr). cbn [negb].
  destruct (Fs.makedirs fs output_dir) as [fs1 [e|]] eqn:Mk; [discriminate|].
  destruct (makedirs_spec fs fs1 output_dir None Mk) as [E _].
  rewrite (read_text_extends fs fs1 input_file content E Hr).
  destruct (Re.finditer content) as [|m0 ms] eqn:Ef; [contradiction|].
  rewrite <- Ef in *. rewrite unpack_loop_entries.
  destruct (Archive.write_entries output_dir
              (Archive.entries_of content (Re.finditer content) 0
                 (Re.finditer content)) fs1 [] 0)
    as [[[fs2 so] cnt] [e|]] eqn:Ew; [discriminate|].
  intros _. cbn [r_stdout].
  destruct (write_entries_ok _ _ _ _ _ _ _ _ Ew) as [_ [_ [Es [En _]]]].
  rewrite Es, En, created_entries, length_entries_of. reflexivity.
Qed.

Lemma X10_witness :
  let content :=
    lit "// FILE: a.swift" ++ [LF] ++ lit "x" ++ [LF]
    ++ lit "// FILE: a.swift" ++ [LF] ++ lit "y" in
  let fs := Fs.mkFS [] [([lit "in.txt"], Fs.File content)] in
  r_stdout (Unpack.unpack_files fs (lit "in.txt") (lit "out"))
  = [lit "Created out/a.swift"; lit "Created out/a.swift";
     [LF] ++ lit "Successfully unpacked 2 files into out"].
Proof.
  intros content fs.
  rewrite (X10_unpack_report fs (lit "in.txt") (lit "out") content);
    [reflexivity|reflexivity|discriminate|reflexivity].
Defined.

(** ** Entries that share a name *)

Section LastFacts.

Import Fs Archive Re.



End LastFacts.



(** ** Packing again *)

Section RepackFacts.

Import Fs Archive Re.






Lemma universal_newlines_app (a x : str) :
  no_cr a = true -> universal_newlines (a ++ x) = a ++ universal_newlines x.
Proof.
  induction a as [|c a IH]; [reflexivity|]. cbn [no_cr forallb]. intros H.
  apply andb_prop in H as [Hc Ha]. apply negb_true_iff in Hc.
  cbn [app universal_newlines]. rewrite Hc. f_equal. now apply IH.
Qed.

Lemma universal_newlines_lf_bounded (k : nat) (y : str) :
  length y <= k -> no_lf (universal_newlines y) = true -> no_lf y = true.
Proof.
  revert y; induction k as [|k IH]; intros y Hk.
  - destruct y; [reflexivity|cbn in Hk; lia].
  - destruct y as [|c y]; [reflexivity|]. cbn [length] in Hk.
    cbn [universal_newlines]. destruct (is_cr c) eqn:C.
    + destruct y as [|d y]; [discriminate|]. destruct (is_lf d); discriminate.
    + cbn [no_lf forallb]. intros H. apply andb_prop in H as [Hc Hy].
      rewrite Hc. cbn [andb]. apply IH; [lia|exact Hy].
Qed.

(** A line feed in a text is still there when the text has been read. *)
Lemma universal_newlines_keeps_lf (a b : str) :
  no_lf (universal_newlines (a ++ LF :: b)) = false.
Proof.
  destruct (no_lf (universal_newlines (a ++ LF :: b))) eqn:E; [|reflexivity].
  apply (universal_newlines_lf_bounded (length (a ++ LF :: b))) in E; [|lia].
  rewrite no_lf_app in E. cbn in E. rewrite andb_false_r in E. discriminate.
Qed.

Lemma scan_starts (s : str) :
  PyStr.strip_prefix MARK s <> None ->
  (forall r, PyStr.strip_prefix MARK s = Some r -> no_lf r = false) ->
  exists m ms, finditer s = m :: ms /\ m_start m = 0.
Proof.
  intros Hp Hl. unfold finditer.
  destruct (PyStr.strip_prefix MARK s) as [r|] eqn:P; [|contradiction].
  specialize (Hl r eq_refl).
  destruct (split_line r) as [[name x]|] eqn:S.
  - destruct s as [|c t]; [discriminate|]. cbn [scan].
    unfold match_here. rewrite P, S. eexists. eexists. split; reflexivity.
  - apply split_line_none in S. congruence.
Qed.

End RepackFacts.



(** X13. The archive [pack_files] writes starts with a marker, whatever
    the names and the texts of the files: when [unpack_files] reads it,
    it finds at least one marker, the first at the start of the text. *)
Theorem X13_archive_starts_with_marker (fs : Fs.FS)
  (source_dir output_file : str) (s o : Fs.loc) :
  wf fs = true ->
  Glob.has_magic source_dir = false ->
  Fs.resolve fs source_dir = Fs.Ok s ->
  Fs.node_at fs s = Some Fs.Dir ->
  matched fs s <> [] ->
  Fs.resolve fs output_file = Fs.Ok o ->
  Fs.node_at fs o <> Some Fs.Dir ->
  (forall n, In n (matched fs s) ->
     o = s ++ [n] \/ exists c, Fs.node_at fs (s ++ [n]) = Some (Fs.File c)) ->
  exists content m ms,
    Fs.read_text (r_fs (Pack.pack_files fs source_dir output_file)) output_file
    = Fs.Ok content
    /\ Re.finditer content = m :: ms
    /\ Re.m_start m = 0.
Proof.
  intros W Hm R N M Ro No Hf.
  rewrite (pack_spec fs source_dir output_file s o W Hm R N M Ro No Hf).
  cbn [r_fs]. set (A := archive_of fs o s).
  set (fs2 := Fs.set_node (Fs.set_node fs o (Fs.File [])) o (Fs.File A)).
  assert (K : keeps_dirs fs fs2) by (now apply (write_keeps fs o A No)).
  exists (Fs.universal_newlines A).
  assert (Ea : exists n rest, A = Re.MARK ++ n ++ LF :: rest).
  { unfold A, archive_of.
    destruct (PyStr.sorted (matched fs s)) as [|n ns] eqn:Es.
    - apply (f_equal (@length str)) in Es. rewrite length_sorted in Es.
      destruct (matched fs s); [contradiction|discriminate].
    - cbn [map Archive.with_sep]. destruct (map _ ns);
        rewrite blocks_cons; now eexists; eexists. }
  destruct Ea as [n [rest Ea]].
  assert (Eu : Fs.universal_newlines A
               = Re.MARK ++ Fs.universal_newlines (n ++ LF :: rest))
    by (rewrite Ea; now apply universal_newlines_app).
  destruct (scan_starts (Fs.universal_newlines A)) as [m [ms [Ef E0]]].
  - rewrite Eu, strip_prefix_app. discriminate.
  - intros r. rewrite Eu, strip_prefix_app. intros [= <-].
    apply universal_newlines_keeps_lf.
  - exists m, ms. split; [|now split].
    unfold Fs.read_text. rewrite (resolve_keeps fs fs2 output_file o K Ro).
    unfold fs2. rewrite node_at_set_same by (now apply (not_root fs)).
    reflexivity.
Qed.

Lemma X13_witness :
  exists content m ms,
    Fs.read_text (r_fs (Pack.pack_files fs_blank (lit "src") (lit "out.txt")))
                 (lit "out.txt")
    = Fs.Ok content
    /\ Re.finditer content = m :: ms
    /\ Re.m_start m = 0.
Proof.
  assert (Hf : forall n, In n (matched fs_blank [lit "src"]) ->
     [lit "out.txt"] = [lit "src"] ++ [n]
     \/ exists c, Fs.node_at fs_blank ([lit "src"] ++ [n]) = Some (Fs.File c)).
  { intros n [<-|[<-|[]]]; right; eexists; vm_compute; reflexivity. }
  apply (X13_archive_starts_with_marker fs_blank (lit "src") (lit "out.txt")
           [lit "src"] [lit "out.txt"]);
    [vm_compute; reflexivity|vm_compute; reflexivity|vm_compute; reflexivity
    |vm_compute; reflexivity|vm_compute; discriminate|vm_compute; reflexivity
    |vm_compute; discriminate|exact Hf].
Defined.

(** ** Unpacking again *)

Section ReunpackFacts.

Import Fs Archive Re.

Lemma same_dirs_refl (fs : FS) : same_dirs fs fs.
Proof. split; [reflexivity|]. intros l. reflexivity. Qed.

Lemma same_dirs_sym (a b : FS) : same_dirs a b -> same_dirs b a.
Proof. intros [C H]. split; [congruence|]. intros l. symmetry. apply H. Qed.

Lemma same_dirs_trans (a b c : FS) :
  same_dirs a b -> same_dirs b c -> same_dirs a c.
Proof.
  intros [C1 H1] [C2 H2]. split; [congruence|].
  intros l. rewrite (H1 l). apply H2.
Qed.

Lemma same_dirs_keeps (a b : FS) : same_dirs a b -> keeps_dirs a b.
Proof. intros [C H]. split; [exact C|]. intros l. apply H. Qed.

Lemma same_dirs_write (fs : FS) (h : loc) (data : str) :
  node_at fs h <> Some Dir ->
  same_dirs fs (close_w (set_node fs h (File [])) h data).
Proof.
  intros N. split; [reflexivity|]. intros l.
  rewrite (write_node fs h l data (not_root fs h N)).
  destruct (loc_eq_dec h l) as [<-|D]; [|reflexivity].
  split; [contradiction|discriminate].
Qed.

Lemma resolve_same_dirs (a b : FS) (p : str) (l : loc) :
  same_dirs a b -> (resolve a p = Ok l <-> resolve b p = Ok l).
Proof.
  intros S. split; apply resolve_keeps;
    [now apply same_dirs_keeps|now apply same_dirs_keeps, same_dirs_sym].
Qed.

Lemma last_at_same_dirs (a b : FS) (output_dir : str) (l : loc)
  (es : list (str * str)) :
  same_dirs a b -> last_at a output_dir l es = last_at b output_dir l es.
Proof.
  intros S. induction es as [|e es IH]; [reflexivity|].
  cbn [last_at]. rewrite IH. destruct (last_at b output_dir l es); [reflexivity|].
  destruct (resolve a (OsPath.join output_dir (fst e))) as [h|ea] eqn:Ra.
  - now rewrite (proj1 (resolve_same_dirs a b _ h S) Ra).
  - destruct (resolve b (OsPath.join output_dir (fst e))) as [h|eb] eqn:Rb;
      [|reflexivity].
    rewrite (proj2 (resolve_same_dirs a b _ h S) Rb) in Ra. discriminate.
Qed.

(** After a run of the loop without error, a location holds the text of
    the last entry written to it, or what it held before. *)
Lemma write_entries_final (output_dir : str) (es : list (str * str))
  (fs fs' : FS) (stdout stdout' : list str) (n n' : nat) :
  write_entries output_dir es fs stdout n = (fs', stdout', n', None) ->
  same_dirs fs fs'
  /\ forall l,
       node_at fs' l
       = match last_at fs output_dir l es with
         | Some x => Some (File x)
         | None => node_at fs l
         end.
Proof.
  revert fs stdout n; induction es as [|e es IH]; intros fs stdout n H.
  - cbn in H. injection H as <- <- <-. split; [apply same_dirs_refl|reflexivity].
  - cbn [write_entries] in H.
    destruct (open_w fs (OsPath.join output_dir (fst e))) as [[fs1 h]|err] eqn:O;
      [|discriminate].
    destruct (open_w_inv _ _ _ _ O) as [R [N ->]].
    pose proof (same_dirs_write fs h (snd e) N) as S.
    destruct (IH _ _ _ H) as [S' Hl].
    split; [exact (same_dirs_trans _ _ _ S S')|].
    intros l. rewrite Hl. cbn [last_at].
    rewrite <- (last_at_same_dirs fs _ output_dir l es S).
    destruct (last_at fs output_dir l es); [reflexivity|].
    rewrite R, (write_node fs h l (snd e) (not_root fs h N)).
    now destruct (loc_eq_dec h l).
Qed.

(** A run of the loop that succeeds in one file system succeeds in any
    file system with the same directories. *)
Lemma write_entries_again (output_dir : str) (es : list (str * str))
  (fs fs' g : FS) (stdout stdout' so : list str) (n n' k : nat) :
  write_entries output_dir es fs stdout n = (fs', stdout', n', None) ->
  same_dirs fs g ->
  exists g',
    write_entries output_dir es g so k
    = (g', so ++ map (created output_dir) es, k + length es, None).
Proof.
  revert fs g stdout n so k; induction es as [|e es IH];
    intros fs g stdout n so k H S.
  - exists g. cbn. now rewrite app_nil_r, Nat.add_0_r.
  - cbn [write_entries] in H.
    destruct (open_w fs (OsPath.join output_dir (fst e))) as [[fs1 h]|err] eqn:O;
      [|discriminate].
    destruct (open_w_inv _ _ _ _ O) as [R [N ->]].
    assert (Ng : node_at g h <> Some Dir).
    { intros D. apply N. now apply (proj2 S h). }
    cbn [write_entries].
    rewrite (open_w_spec g _ h (proj1 (resolve_same_dirs fs g _ h S) R) Ng).
    destruct (IH _ (close_w (set_node g h (File [])) h (snd e)) _ _
                (so ++ [lit "Created " ++ OsPath.join output_dir (fst e)])
                (k + 1) H) as [g' Hg].
    + apply (same_dirs_trans _ fs).
      * apply same_dirs_sym. now apply same_dirs_write.
      * apply (same_dirs_trans _ g); [exact S|now apply same_dirs_write].
    + exists g'. rewrite Hg. cbn [map length]. unfold created at 2.
      rewrite <- app_assoc. cbn [app]. do 2 f_equal. lia.
Qed.

Lemma walk_reaches_dir (fs : FS) (comps : list str) (cur l : loc) :
  walk fs cur comps = Ok l -> node_at fs l = Some Dir ->
  node_at fs cur <> None.
Proof.
  destruct comps as [|x rest]; cbn [walk].
  - intros [= ->] H. congruence.
  - destruct (node_at fs cur); [discriminate|discriminate].
Qed.

(** [mkdirs] on a path that names a directory makes nothing. *)
Lemma mkdirs_dir (fs : FS) (comps : list str) (cur l : loc) :
  walk fs cur comps = Ok l -> node_at fs l = Some Dir ->
  mkdirs fs cur comps = (fs, None).
Proof.
  revert cur; induction comps as [|x rest IH]; intros cur W N.
  - cbn in W. injection W as ->. cbn. now rewrite N.
  - cbn [walk mkdirs] in *.
    destruct (node_at fs cur) as [[|]|]; try discriminate.
    destruct (is_cur x); [now apply IH|].
    destruct (is_parent x); [now apply IH|].
    destruct (node_at fs (cur ++ [x])) eqn:E; [now apply IH|].
    exfalso. now apply (walk_reaches_dir fs rest (cur ++ [x]) l W N).
Qed.

Lemma makedirs_existing (fs : FS) (p : str) :
  isdir fs p = true -> makedirs fs p = (fs, None).
Proof.
  unfold isdir, makedirs, resolve. destruct p as [|c p]; [discriminate|].
  destruct (walk fs (start fs (c :: p)) (split_slash (c :: p))) as [l|] eqn:W;
    [|discriminate].
  destruct (node_at fs l) as [[x|]|] eqn:N; try discriminate.
  intros _. now apply (mkdirs_dir fs _ _ l).
Qed.

Lemma isdir_keeps_dirs (fs fs' : FS) (p : str) :
  keeps_dirs fs fs' -> isdir fs p = true -> isdir fs' p = true.
Proof.
  intros K. unfold isdir.
  destruct (resolve fs p) as [l|] eqn:R; [|discriminate].
  rewrite (resolve_keeps fs fs' p l K R).
  destruct (node_at fs l) as [[c|]|] eqn:N; try discriminate.
  now rewrite (proj2 K _ N).
Qed.

(** What a run of [unpack_files] that found markers and returned has
    done. *)
Lemma unpack_returned (fs : FS) (input_file output_dir content : str) :
  read_text fs input_file = Ok content ->
  finditer content <> [] ->
  r_outcome (Unpack.unpack_files fs input_file output_dir) = Returned ->
  exists fs1 fs2 so cnt,
    makedirs fs output_dir = (fs1, None)
    /\ write_entries output_dir (entries content) fs1 [] 0
       = (fs2, so, cnt, None)
    /\ Unpack.unpack_files fs input_file output_dir
       = mkResult fs2
           (so ++ [[LF] ++ lit "Successfully unpacked " ++ str_of_nat cnt
                   ++ lit " files into " ++ output_dir])
           Returned.
Proof.
  intros Hr Hm. unfold Unpack.unpack_files.
  rewrite (read_text_exists fs input_file content Hr). cbn [negb].
  destruct (makedirs fs output_dir) as [fs1 [e|]] eqn:Mk; [discriminate|].
  destruct (makedirs_spec fs fs1 output_dir None Mk) as [E _].
  rewrite (read_text_extends fs fs1 input_file content E Hr).
  destruct (finditer content) as [|m0 ms] eqn:Ef; [contradiction|].
  rewrite <- Ef in *. rewrite unpack_loop_entries.
  fold (entries content).
  destruct (write_entries output_dir (entries content) fs1 [] 0)
    as [[[fs2 so] cnt] [e|]] eqn:Ew; [discriminate|].
  intros _. now exists fs1, fs2, so, cnt.
Qed.

End ReunpackFacts.

(** X14. Unpacking a second time changes nothing: when a run of
    [unpack_files] has found markers and returned, and the input file
    still reads as before, a second run returns too, prints the same
    lines and leaves every node as the first run left it. *)
Theorem X14_unpack_twice (fs : Fs.FS) (input_file output_dir content : str) :
  Fs.read_text fs input_file = Fs.Ok content ->
  Re.finditer content <> [] ->
  r_outcome (Unpack.unpack_files fs input_file output_dir) = Returned ->
  Fs.read_text (r_fs (Unpack.unpack_files fs input_file output_dir)) input_file
  = Fs.Ok content ->
  let r1 := Unpack.unpack_files fs input_file output_dir in
  let r2 := Unpack.unpack_files (r_fs r1) input_file output_dir in
  r_outcome r2 = Returned
  /\ r_stdout r2 = r_stdout r1
  /\ forall l, Fs.node_at (r_fs r2) l = Fs.node_at (r_fs r1) l.
Proof.
  intros Hr Hm Ho Hr2 r1 r2.
  destruct (unpack_returned fs input_file output_dir content Hr Hm Ho)
    as [fs1 [fs2 [so [cnt [Mk [Ew E1]]]]]].
  unfold r2, r1. clear r1 r2. rewrite E1 in *. cbn [r_fs r_stdout] in *.
  destruct (makedirs_spec fs fs1 output_dir None Mk) as [_ [_ Di]].
  destruct (write_entries_ok _ _ _ _ _ _ _ _ Ew) as [K [_ [Es [En _]]]].
  destruct (write_entries_final _ _ _ _ _ _ _ _ Ew) as [S Hl].
  destruct (write_entries_again output_dir (Archive.entries content)
              fs1 fs2 fs2 [] so [] 0 cnt 0 Ew S) as [g' Hg].
  destruct (write_entries_final _ _ _ _ _ _ _ _ Hg) as [_ Hl'].
  unfold Unpack.unpack_files.
  rewrite (read_text_exists fs2 input_file content Hr2). cbn [negb].
  rewrite (makedirs_existing fs2 output_dir
             (isdir_keeps_dirs fs1 fs2 output_dir K (Di eq_refl))).
  rewrite Hr2.
  destruct (Re.finditer content) as [|m0 ms] eqn:Ef; [contradiction|].
  rewrite <- Ef. rewrite unpack_loop_entries.
  fold (Archive.entries content). rewrite Hg.
  cbn [r_fs r_stdout r_outcome].
  split; [reflexivity|]. split.
  - rewrite Es, En. reflexivity.
  - intros l. rewrite Hl', Hl.
    rewrite <- (last_at_same_dirs fs1 fs2 output_dir l _ S).
    now destruct (last_at fs1 output_dir l (Archive.entries content)).
Qed.

Lemma X14_witness :
  let content :=
    lit "// FILE: a.swift" ++ [LF] ++ lit "x" ++ [LF]
    ++ lit "// FILE: ../b.json" ++ [LF] ++ lit "{}" in
  let fs := Fs.mkFS [] [([lit "in.txt"], Fs.File content)] in
  let r1 := Unpack.unpack_files fs (lit "in.txt") (lit "out") in
  let r2 := Unpack.unpack_files (r_fs r1) (lit "in.txt") (lit "out") in
  r_outcome r1 = Returned
  /\ r_outcome r2 = Returned
  /\ r_stdout r2 = r_stdout r1
  /\ forall l, Fs.node_at (r_fs r2) l = Fs.node_at (r_fs r1) l.
Proof.
  intros content fs r1 r2. split; [vm_compute; reflexivity|].
  apply (X14_unpack_twice fs (lit "in.txt") (lit "out") content);
    [vm_compute; reflexivity|vm_compute; discriminate
    |vm_compute; reflexivity|vm_compute; reflexivity].
Defined.




